(** * ecpps: a shallow embedding of [ecpps.h] and its properties

    The header implements a small entity-component-system: per-type
    component stores ([ComponentVector<T>]: a dense [vector<T>] plus a
    sparse [map<ID, unsigned>]), a type-keyed registry of stores
    ([ComponentManager]) and the top-level [ECSManager] that owns entities,
    entity-ID recycling and the two system lists.

    Conventions of the embedding
    - [unsigned] is 32 bits wide: values live in [N] and every operation
      that can leave the range is wrapped with [to_unsigned].
    - [std::map<ID, _>] is a [gmap N _]; [std::vector] is a [list].
    - [map<const char*, shared_ptr<IComponentVector>>] is iterated while
      its stores may throw, so its key order is observable: it is an
      association list kept sorted by key.
    - A member function is a state transformer returning an [outcome]:
      normal return, a thrown C++ exception (with the state reached when
      it was thrown), or undefined behaviour. *)

From stdpp Require Import gmap list fin_maps sorting.

Local Open Scope N_scope.

(** ** Machine integers *)

(** [typedef unsigned ID;] *)
Abbreviation ID := N (only parsing).

(** Conversion to [unsigned] (modular reduction). *)
Definition to_unsigned (n : N) : N := n mod 2 ^ 32.

(** ** Outcomes of member functions *)

(** The only exception type the header can raise is the one thrown by
    [map::at] and [vector::at]. *)
Inductive exception : Set :=
| out_of_range.

Inductive outcome (S A : Type) : Type :=
| Returns (a : A) (s : S)
| Throws (e : exception) (s : S)
| Undefined.
Arguments Returns {S A} a s.
Arguments Throws {S A} e s.
Arguments Undefined {S A}.

Definition op (S A : Type) : Type := S → outcome S A.

Definition ret {S A} (a : A) : op S A := λ s, Returns a s.

Definition bind {S A B} (m : op S A) (k : A → op S B) : op S B :=
  λ s, match m s with
       | Returns a s' => k a s'
       | Throws e s' => Throws e s'
       | Undefined => Undefined
       end.

(** Run an operation of a member object inside its owner. *)
Definition within {S S' A} (get : S → S') (set : S' → S → S)
    (m : op S' A) : op S A :=
  λ s, match m (get s) with
       | Returns a s' => Returns a (set s' s)
       | Throws e s' => Throws e (set s' s)
       | Undefined => Undefined
       end.

Declare Scope op_scope.
Delimit Scope op_scope with op.
Notation "x <- m ;; k" := (bind m (λ x, k))
  (at level 100, m at next level, right associativity) : op_scope.
Notation "m ;;; k" := (bind m (λ _, k))
  (at level 100, right associativity) : op_scope.

Definition returned {S A} (o : outcome S A) : Prop :=
  match o with Returns _ _ => True | _ => False end.

Definition threw {S A} (o : outcome S A) : Prop :=
  match o with Throws _ _ => True | _ => False end.

(** ** [ComponentVector<T>] *)

Module ComponentVector.
Section with_T.
Context {T : Type}.

Record t : Type := mk {
  (* holds indexes of entityID *)
  indexes : gmap N N;
  (* holds vector of components *)
  components : list T
}.

Definition empty : t := {| indexes := ∅; components := [] |}.

(** [std::map::insert]: no effect when the key is already present. *)
Definition map_insert (key value : N) (m : gmap N N) : gmap N N :=
  match m !! key with
  | Some _ => m
  | None => <[key := value]> m
  end.

(** [std::map::operator[]]: value-initialises a missing entry. *)
Definition map_subscript (key : N) (m : gmap N N) : N * gmap N N :=
  match m !! key with
  | Some value => (value, m)
  | None => (0, <[key := 0]> m)
  end.

Definition addComponent (entityID : ID) (component : T) : op t unit :=
  λ cv,
    let index :=
      match components cv with
      | [] => 0
      | _ => to_unsigned (N.of_nat (length (components cv)))
      end in
    Returns tt {| indexes := map_insert entityID index (indexes cv);
                  components := components cv ++ [component] |}.

(** The loop at the end of [removeEntity]: every entry whose stored
    index is above the erased one is overwritten with [value - 1]. *)
Definition renumber (index : N) (m : gmap N N) : gmap N N :=
  map_fold (λ key value acc,
              if decide (index < value) then <[key := value - 1]> acc
              else acc) m m.

Definition removeEntity (entityID : ID) : op t unit :=
  λ cv,
    match indexes cv !! entityID with
    | None => Throws out_of_range cv
    | Some index =>
        let erased := delete entityID (indexes cv) in
        if decide (N.to_nat index < length (components cv))%nat then
          Returns tt {| indexes := renumber index erased;
                        components := delete (N.to_nat index) (components cv) |}
        else
          (* vector::erase on an iterator at or past end() *)
          Undefined
    end.

Definition getComponentAt (entityID : ID) : op t T :=
  λ cv,
    let '(index, indexes') := map_subscript entityID (indexes cv) in
    let cv' := {| indexes := indexes'; components := components cv |} in
    match components cv !! N.to_nat index with
    | Some component => Returns component cv'
    | None => Throws out_of_range cv'
    end.

Definition getComponentVector (cv : t) : list T := components cv.

(** Logical view of a store: the component an entity is mapped to. *)
Definition component_of (cv : t) (entityID : ID) : option T :=
  indexes cv !! entityID ≫= λ index, components cv !! N.to_nat index.

Definition holds (cv : t) (entityID : ID) : Prop :=
  is_Some (indexes cv !! entityID).

(** Every recorded slot is a position of the dense array. *)
Definition slots_valid (cv : t) : Prop :=
  map_Forall (λ _ index, (N.to_nat index < length (components cv))%nat)
             (indexes cv).

(** No two entities share a slot. *)
Definition slots_distinct (cv : t) : Prop :=
  map_Forall (λ e1 index1,
                map_Forall (λ e2 index2, index1 = index2 → e1 = e2)
                           (indexes cv))
             (indexes cv).

Global Instance slots_valid_dec cv : Decision (slots_valid cv).
Proof. unfold slots_valid. apply _. Defined.

Global Instance slots_distinct_dec cv : Decision (slots_distinct cv).
Proof. unfold slots_distinct. apply _. Defined.

End with_T.
Arguments t : clear implicits.
End ComponentVector.

(** ** [ComponentManager] *)

(** A component type [T] as the templates see it: the address of
    [typeid(T).name()], which keys the registry, and
    [is_base_of<Component, T>::value]. *)
Record ctype : Set := {
  typekey : N;
  derives_Component : bool
}.

Module ComponentManager.
Section with_T.
Context {T : Type}.

Abbreviation store := (ComponentVector.t T).

(** [map<const char*, shared_ptr<IComponentVector>>], in key order. *)
Record t : Type := mk {
  componentVectors : list (N * store)
}.

Definition empty : t := {| componentVectors := [] |}.

Fixpoint map_find (key : N) (m : list (N * store)) : option store :=
  match m with
  | [] => None
  | (k, v) :: rest => if decide (k = key) then Some v else map_find key rest
  end.

(** [std::map::insert]: ordered, no effect on a present key. *)
Fixpoint map_insert (key : N) (v : store) (m : list (N * store))
    : list (N * store) :=
  match m with
  | [] => [(key, v)]
  | (k, v') :: rest =>
      if decide (key < k) then (key, v) :: m
      else if decide (key = k) then m
      else (k, v') :: map_insert key v rest
  end.

(** Writing through the [shared_ptr] stored under [key]. *)
Fixpoint map_store (key : N) (v : store) (m : list (N * store))
    : list (N * store) :=
  match m with
  | [] => []
  | (k, v') :: rest =>
      if decide (k = key) then (k, v) :: rest
      else (k, v') :: map_store key v rest
  end.

Definition getComponentVector (typekey : N) : op t store :=
  λ cm,
    let vectors :=
      match map_find typekey (componentVectors cm) with
      | None => map_insert typekey ComponentVector.empty (componentVectors cm)
      | Some _ => componentVectors cm
      end in
    match map_find typekey vectors with
    | Some v => Returns v {| componentVectors := vectors |}
    | None => Throws out_of_range {| componentVectors := vectors |}
    end.

(** A member call [p->f(...)] through the pointer registered under
    [typekey]; the callee mutates the store the map points to. *)
Definition arrow {A} (typekey : N) (f : op store A) : op t A :=
  λ cm,
    match map_find typekey (componentVectors cm) with
    | None => Undefined
    | Some v =>
        within (λ _, v)
               (λ v' cm, {| componentVectors :=
                              map_store typekey v' (componentVectors cm) |})
               f cm
    end.

Definition addComponent (typekey : N) (entityID : ID) (component : T)
    : op t unit :=
  (_ <- getComponentVector typekey ;;
   arrow typekey (ComponentVector.addComponent entityID component))%op.

Fixpoint removeEntity_loop (entityID : ID) (m : list (N * store))
    : outcome (list (N * store)) unit :=
  match m with
  | [] => Returns tt []
  | (key, value) :: rest =>
      match ComponentVector.removeEntity entityID value with
      | Returns _ value' =>
          match removeEntity_loop entityID rest with
          | Returns _ rest' => Returns tt ((key, value') :: rest')
          | Throws e rest' => Throws e ((key, value') :: rest')
          | Undefined => Undefined
          end
      | Throws e value' => Throws e ((key, value') :: rest)
      | Undefined => Undefined
      end
  end.

Definition removeEntity (entityID : ID) : op t unit :=
  within componentVectors (λ m _, {| componentVectors := m |})
         (removeEntity_loop entityID).

End with_T.
Arguments t : clear implicits.
End ComponentManager.

(** ** Systems *)

(** The type argument of [registerSystem<T>]: the two base classes
    themselves, user classes deriving from one of them, or any other
    type. *)
Inductive systype : Set :=
| System
| RenderSystem
| UserSystem (name : N)
| UserRenderSystem (name : N)
| Unrelated (name : N).

(** [is_base_of<System, T>::value] *)
Definition derives_System (T : systype) : bool :=
  match T with
  | Unrelated _ => false
  | _ => true
  end.

(** [is_base_of<RenderSystem, T>::value] *)
Definition derives_RenderSystem (T : systype) : bool :=
  match T with
  | RenderSystem | UserRenderSystem _ => true
  | _ => false
  end.

Inductive hook : Set :=
| hook_init
| hook_update
| hook_render.

(** What the system part of the manager does, in program order.  Objects
    are named by the order in which they come to life. *)
Inductive event : Set :=
| Constructed (T : systype) (obj : nat)
  (* [T x;] default-constructs object [obj] *)
| Copied (B : systype) (src dst : nat)
  (* [v.emplace_back(x)] on a [vector<B>]: element [dst] is built by
     [B]'s copy constructor from [src], so its dynamic type is [B] *)
| Called (h : hook) (obj : nat) (impl : systype).
  (* virtual call of [h] on [obj], dispatched to [impl::h] *)

Global Instance systype_eq_dec : EqDecision systype.
Proof. solve_decision. Defined.
Global Instance hook_eq_dec : EqDecision hook.
Proof. solve_decision. Defined.
Global Instance event_eq_dec : EqDecision event.
Proof. solve_decision. Defined.

(** An element of [vector<System>] or [vector<RenderSystem>]. *)
Record sysobj : Set := {
  address : nat;
  dynamic_type : systype
}.

(** ** [Entity] and [ECSManager] *)

(** The manager reference every [Entity] carries is the manager that
    stores it, so only the ID is kept. *)
Record Entity : Set := { entityID : N }.

Module ECSManager.
Section with_T.
Context {T : Type}.

Record t : Type := mk {
  (* holds all systems for looping through updates *)
  systems : list sysobj;
  (* holds all render systems for looping through renders *)
  rsystems : list sysobj;
  (* holds all component vectors *)
  components : ComponentManager.t T;
  (* holds all Entity class objects *)
  entities : gmap N Entity;
  (* holds current value to generate new entityIDs *)
  nextID : N;
  (* holds all IDs that once belonged to deleted entities *)
  reusableIDs : list N;
  (* instrumentation: system events so far, and the next object name *)
  trace : list event;
  objects : nat
}.

(** [ECSManager() {}] *)
Definition new : t :=
  {| systems := []; rsystems := []; components := ComponentManager.empty;
     entities := ∅; nextID := 0; reusableIDs := [];
     trace := []; objects := 0 |}.

Definition set_components (c : ComponentManager.t T) (w : t) : t :=
  mk (systems w) (rsystems w) c (entities w) (nextID w) (reusableIDs w)
     (trace w) (objects w).
Definition set_entities (e : gmap N Entity) (w : t) : t :=
  mk (systems w) (rsystems w) (components w) e (nextID w) (reusableIDs w)
     (trace w) (objects w).
Definition set_nextID (n : N) (w : t) : t :=
  mk (systems w) (rsystems w) (components w) (entities w) n (reusableIDs w)
     (trace w) (objects w).
Definition set_reusableIDs (l : list N) (w : t) : t :=
  mk (systems w) (rsystems w) (components w) (entities w) (nextID w) l
     (trace w) (objects w).

Definition live (w : t) (id : ID) : Prop := is_Some (entities w !! id).

(** Every stored [Entity] carries the ID it is stored under. *)
Definition entities_keyed (w : t) : Prop :=
  map_Forall (λ id e, entityID e = id) (entities w).

Global Instance entities_keyed_dec w : Decision (entities_keyed w).
Proof. unfold entities_keyed. apply _. Defined.

Definition generateEntityID : op t ID :=
  λ w,
    if decide (length (reusableIDs w) ≠ 0%nat) then
      match last (reusableIDs w) with
      | Some toReturn =>
          Returns toReturn (set_reusableIDs (removelast (reusableIDs w)) w)
      | None => Undefined
      end
    else
      Returns (nextID w) (set_nextID (to_unsigned (nextID w + 1)) w).

Definition createEntity : op t Entity :=
  (newID <- generateEntityID ;;
   λ w,
     let newEntity := {| entityID := newID |} in
     (* map::insert keeps an entity already stored under newID *)
     let entities' :=
       match entities w !! newID with
       | Some _ => entities w
       | None => <[newID := newEntity]> (entities w)
       end in
     match entities' !! newID with
     | Some e => Returns e (set_entities entities' w)
     | None => Throws out_of_range (set_entities entities' w)
     end)%op.

Definition destroyEntity (entityID : ID) : op t unit :=
  λ w,
    match entities w !! entityID with
    | None => Throws out_of_range w
    | Some toDestroy =>
        (within components set_components
                (ComponentManager.removeEntity entityID) ;;;
         λ w, Returns tt
                (set_reusableIDs (reusableIDs w ++ [entityID])
                   (set_entities (delete entityID (entities w)) w)))%op w
    end.

Definition addComponent (C : ctype) (entityID : ID) (component : T)
    : op t unit :=
  if derives_Component C then
    within components set_components
           (ComponentManager.addComponent (typekey C) entityID component)
  else ret tt.

Definition getComponentVector (C : ctype) : op t (ComponentVector.t T) :=
  within components set_components
         (ComponentManager.getComponentVector (typekey C)).

(** *** Systems *)

Definition set_systems (l : list sysobj) (w : t) : t :=
  mk l (rsystems w) (components w) (entities w) (nextID w) (reusableIDs w)
     (trace w) (objects w).
Definition set_rsystems (l : list sysobj) (w : t) : t :=
  mk (systems w) l (components w) (entities w) (nextID w) (reusableIDs w)
     (trace w) (objects w).

(** Record an event. *)
Definition emit (ev : event) : op t unit :=
  λ w, Returns tt
         (mk (systems w) (rsystems w) (components w) (entities w)
             (nextID w) (reusableIDs w) (trace w ++ [ev]) (objects w)).

(** Name a new object. *)
Definition allocate : op t nat :=
  λ w, Returns (objects w)
         (mk (systems w) (rsystems w) (components w) (entities w)
             (nextID w) (reusableIDs w) (trace w) (Datatypes.S (objects w))).

(** [T x;] *)
Definition construct (T0 : systype) : op t nat :=
  (obj <- allocate ;; emit (Constructed T0 obj) ;;; ret obj)%op.

(** [systems.emplace_back(x)] *)
Definition systems_emplace_back (src : nat) : op t unit :=
  (dst <- allocate ;;
   emit (Copied System src dst) ;;;
   λ w, Returns tt
          (set_systems
             (systems w ++ [{| address := dst; dynamic_type := System |}]) w))%op.

(** [rsystems.emplace_back(x)] *)
Definition rsystems_emplace_back (src : nat) : op t unit :=
  (dst <- allocate ;;
   emit (Copied RenderSystem src dst) ;;;
   λ w, Returns tt
          (set_rsystems
             (rsystems w ++ [{| address := dst; dynamic_type := RenderSystem |}])
             w))%op.

Definition registerSystem (T0 : systype) : op t unit :=
  if derives_System T0 then
    ((if derives_RenderSystem T0 then
        (rsystem <- construct T0 ;;
         rsystems_emplace_back rsystem)
      else ret tt) ;;;
     system <- construct T0 ;;
     systems_emplace_back system ;;;
     emit (Called hook_init system T0))%op
  else ret tt.

(** A range-based [for] whose body is a virtual call on the element.
    The elements are [System]/[RenderSystem] objects held by value, so
    the call reaches the empty hook of the base class. *)
Fixpoint for_each (h : hook) (l : list sysobj) : op t unit :=
  match l with
  | [] => ret tt
  | x :: rest =>
      (emit (Called h (address x) (dynamic_type x)) ;;; for_each h rest)%op
  end.

Definition update : op t unit :=
  λ w, (for_each hook_update (systems w) ;;;
        for_each hook_update (rsystems w))%op w.

Definition render : op t unit :=
  λ w, for_each hook_render (rsystems w) w.

(** [Entity::addComponent] and [Entity::destroy], on the manager the
    entity refers to. *)
Definition Entity_addComponent (e : Entity) (C : ctype) (component : T)
    : op t unit :=
  if derives_Component C then addComponent C (entityID e) component
  else ret tt.

Definition Entity_destroy (e : Entity) : op t unit :=
  destroyEntity (entityID e).

End with_T.
Arguments t : clear implicits.
End ECSManager.

(** ** Sequences of entity calls *)

Inductive call : Set :=
| CreateEntity
| DestroyEntity (id : N).

Section calls.
Context {T : Type}.

(** One call made by an application that keeps, next to the manager,
    the IDs of the entities it was handed by [createEntity] and has not
    destroyed since.  An exception is caught and the run goes on from
    the state reached at the throw; undefined behaviour ends the run. *)
Definition step (c : call) (s : ECSManager.t T * list N)
    : option (ECSManager.t T * list N) :=
  match c with
  | CreateEntity =>
      match ECSManager.createEntity s.1 with
      | Returns e w' => Some (w', s.2 ++ [entityID e])
      | Throws _ w' => Some (w', s.2)
      | Undefined => None
      end
  | DestroyEntity id =>
      match ECSManager.destroyEntity id s.1 with
      | Returns _ w' => Some (w', filter (λ x, x ≠ id) s.2)
      | Throws _ w' => Some (w', s.2)
      | Undefined => None
      end
  end.

Fixpoint run (cs : list call) (s : ECSManager.t T * list N)
    : option (ECSManager.t T * list N) :=
  match cs with
  | [] => Some s
  | c :: cs' => step c s ≫= run cs'
  end.

(** Number of [createEntity] calls in a sequence. *)
Fixpoint creations (cs : list call) : N :=
  match cs with
  | [] => 0
  | CreateEntity :: cs' => 1 + creations cs'
  | DestroyEntity _ :: cs' => creations cs'
  end.

(** The state of the ID allocator after [issued] values were drawn from
    the counter: the entities held by the application are the live
    ones, each once; pooled IDs are pairwise distinct and not live; and
    all of them lie below [issued], the first value not yet drawn. *)
Record ids_consistent (issued : N) (w : ECSManager.t T) (held : list N)
    : Prop := {
  ic_counter : ECSManager.nextID w = to_unsigned issued;
  ic_issued : issued ≤ 2 ^ 32;
  ic_no_stores : ECSManager.components w = ComponentManager.empty;
  ic_keyed : ECSManager.entities_keyed w;
  ic_held_nodup : NoDup held;
  ic_held_live : ∀ id, id ∈ held ↔ ECSManager.live w id;
  ic_pool_nodup : NoDup (ECSManager.reusableIDs w);
  ic_pool_dead : ∀ id, id ∈ ECSManager.reusableIDs w → ¬ ECSManager.live w id;
  ic_below : ∀ id, ECSManager.live w id ∨ id ∈ ECSManager.reusableIDs w →
                   id < issued
}.

End calls.

(** ** Sample component types *)

Definition Position : ctype := {| typekey := 10; derives_Component := true |}.
Definition Velocity : ctype := {| typekey := 20; derives_Component := true |}.
(** A type that does not derive from [Component]. *)
Definition Label : ctype := {| typekey := 30; derives_Component := false |}.

(** ** Sample states *)

(** Entities 0, 1 and 2 with the components 10, 11 and 12. *)
Definition three_stored : ComponentVector.t N :=
  {| ComponentVector.indexes := {[0 := 0; 1 := 1; 2 := 2]};
     ComponentVector.components := [10; 11; 12] |}.

(** Entity 7 with the component 10. *)
Definition one_stored : ComponentVector.t N :=
  {| ComponentVector.indexes := {[7 := 0]};
     ComponentVector.components := [10] |}.

(** A manager whose counter stands at 6 and whose pool holds 3 and 5. *)
Definition two_pooled : ECSManager.t N :=
  ECSManager.set_reusableIDs [3; 5] (ECSManager.set_nextID 6 ECSManager.new).

(** Scenario A of the entity life cycle. *)
Definition scenario_A : list call :=
  [CreateEntity; CreateEntity; DestroyEntity 0; CreateEntity].

(** ** Further notions about stores, the registry and the system lists *)

(** The dense array has exactly one element per entity of the sparse
    index. *)
Definition dense_exact {T} (cv : ComponentVector.t T) : Prop :=
  size (ComponentVector.indexes cv) = length (ComponentVector.components cv).

(** Calls a system can make on one store. *)
Inductive store_call (T : Type) : Type :=
| Add (id : N) (component : T)
| Remove (id : N).
Arguments Add {T} id component.
Arguments Remove {T} id.

Section store_calls.
Context {T : Type}.

(** As [step]: an exception is caught and the run goes on, undefined
    behaviour ends it. *)
Definition store_step (c : store_call T) (cv : ComponentVector.t T)
    : option (ComponentVector.t T) :=
  match
    match c with
    | Add id component => ComponentVector.addComponent id component cv
    | Remove id => ComponentVector.removeEntity id cv
    end
  with
  | Returns _ cv' => Some cv'
  | Throws _ cv' => Some cv'
  | Undefined => None
  end.

Fixpoint store_run (cs : list (store_call T)) (cv : ComponentVector.t T)
    : option (ComponentVector.t T) :=
  match cs with
  | [] => Some cv
  | c :: cs' => store_step c cv ≫= store_run cs'
  end.

(** Number of [addComponent] calls in a sequence. *)
Fixpoint additions (cs : list (store_call T)) : N :=
  match cs with
  | [] => 0
  | Add _ _ :: cs' => 1 + additions cs'
  | Remove _ :: cs' => additions cs'
  end.

(** The registry lists its stores by strictly increasing key. *)
Definition keys_sorted (cm : ComponentManager.t T) : Prop :=
  StronglySorted N.lt (ComponentManager.componentVectors cm).*1.

(** Every store of the registry has valid slots. *)
Definition stores_valid (m : list (N * ComponentVector.t T)) : Prop :=
  Forall (λ kv, ComponentVector.slots_valid kv.2) m.

(** Every store of the registry holds the entity. *)
Definition held_in_all (id : N) (m : list (N * ComponentVector.t T)) : Prop :=
  Forall (λ kv, ComponentVector.holds kv.2 id) m.

(** The elements of the two system vectors are base-class objects. *)
Definition sliced (w : ECSManager.t T) : Prop :=
  Forall (λ x, dynamic_type x = System) (ECSManager.systems w) ∧
  Forall (λ x, dynamic_type x = RenderSystem) (ECSManager.rsystems w).

(** [registerSystem<T>()] for each type of a list, in order. *)
Fixpoint register_all (Ts : list systype) : op (ECSManager.t T) unit :=
  match Ts with
  | [] => ret tt
  | T0 :: Ts' => (ECSManager.registerSystem T0 ;;; register_all Ts')%op
  end.

End store_calls.

(** ** More sample states *)

(** A registry with two stores that both hold entity 0. *)
Definition two_stores : ComponentManager.t N :=
  {| ComponentManager.componentVectors :=
       [(10, {| ComponentVector.indexes := {[0 := 0]};
                ComponentVector.components := [5] |});
        (20, {| ComponentVector.indexes := {[0 := 0; 1 := 1]};
                ComponentVector.components := [6; 7] |})] |}.

(** A manager with the live entities 0 and 1 and no component store. *)
Definition two_entities : ECSManager.t N :=
  ECSManager.set_entities
    {[0 := {| entityID := 0 |}; 1 := {| entityID := 1 |}]}
    (ECSManager.set_nextID 2 ECSManager.new).

(** Calls on one store: two insertions, a removal and a re-insertion. *)
Definition store_calls_sample : list (store_call N) :=
  [Add 0 10; Add 1 11; Remove 0; Add 0 12].

(** The store left by [addComponent 0 100] followed by a lookup of the
    absent entity 1: both entities are recorded at slot 0. *)
Definition shared_slot : ComponentVector.t N :=
  {| ComponentVector.indexes := {[0 := 0; 1 := 0]};
     ComponentVector.components := [100] |}.

(** [shared_slot] after [removeEntity 1]. *)
Definition shared_slot_removed : ComponentVector.t N :=
  {| ComponentVector.indexes := {[0 := 0]};
     ComponentVector.components := [] |}.

(** The live entities 0 and 1 over the stores of [two_stores]: store 10
    holds entity 0 only, store 20 holds both. *)
Definition two_entities_stored : ECSManager.t N :=
  ECSManager.set_components two_stores two_entities.

(** Two creations on a new manager. *)
Definition two_creations : list call := [CreateEntity; CreateEntity].

(** * Properties *)

(** ** Component stores *)

Section store_facts.
Context {T : Type}.
Implicit Types (cv : ComponentVector.t T) (id e : N) (v : T).
Import ComponentVector.

Lemma slots_valid_lookup cv e index :
  slots_valid cv → indexes cv !! e = Some index →
  (N.to_nat index < length (components cv))%nat.
Proof. intros Hv He. exact (Hv e index He). Qed.

Lemma slots_distinct_lookup cv e1 e2 index :
  slots_distinct cv → indexes cv !! e1 = Some index →
  indexes cv !! e2 = Some index → e1 = e2.
Proof. intros Hd H1 H2. exact (Hd e1 index H1 e2 index H2 eq_refl). Qed.

(** The renumbering loop, entry by entry. *)
Lemma renumber_lookup index (m : gmap N N) key :
  renumber index m !! key =
  (λ value, if decide (index < value) then value - 1 else value) <$> m !! key.
Proof.
  unfold renumber.
  cut (∀ m0 : gmap N N,
         map_fold (λ k value acc,
                     if decide (index < value) then <[k := value - 1]> acc
                     else acc) m0 m !! key =
         match m !! key with
         | Some value => if decide (index < value) then Some (value - 1)
                         else m0 !! key
         | None => m0 !! key
         end).
  { intros H. rewrite H. destruct (m !! key) as [value|]; simpl; [|done].
    by case_decide. }
  intros m0.
  apply (map_fold_weak_ind (λ r m', r !! key = match m' !! key with
     | Some value => if decide (index < value) then Some (value - 1)
                     else m0 !! key
     | None => m0 !! key end)).
  - by rewrite lookup_empty.
  - intros i x m' r Hi IH.
    destruct (decide (i = key)) as [->|Hne].
    + rewrite lookup_insert_eq, Hi in *.
      case_decide; [by rewrite lookup_insert_eq | done].
    + rewrite (lookup_insert_ne m') by done.
      case_decide; [by rewrite lookup_insert_ne | done].
Qed.

(** What a remove does to a store that holds [id] at a slot inside the
    dense array. *)
Lemma removeEntity_held cv id slot :
  indexes cv !! id = Some slot →
  (N.to_nat slot < length (components cv))%nat →
  removeEntity id cv =
  Returns tt {| indexes := renumber slot (delete id (indexes cv));
                components := delete (N.to_nat slot) (components cv) |}.
Proof.
  intros Hid Hlt. unfold removeEntity. rewrite Hid.
  by rewrite decide_True.
Qed.

Lemma removeEntity_absent cv id :
  indexes cv !! id = None → removeEntity id cv = Throws out_of_range cv.
Proof. intros Hid. unfold removeEntity. by rewrite Hid. Qed.

(** The sparse index after a successful remove. *)
Lemma removed_lookup (m : gmap N N) id slot e :
  renumber slot (delete id m) !! e =
  if decide (e = id) then None
  else (λ s, if decide (slot < s) then s - 1 else s) <$> m !! e.
Proof.
  rewrite renumber_lookup. case_decide as He.
  - subst e. by rewrite lookup_delete_eq.
  - by rewrite lookup_delete_ne.
Qed.

(** The dense array after the erase: positions below the slot are kept,
    the others are moved down by one. *)
Lemma erased_lookup (l : list T) slot s :
  s ≠ slot →
  delete (N.to_nat slot) l
    !! N.to_nat (if decide (slot < s) then s - 1 else s) =
  l !! N.to_nat s.
Proof.
  intros Hne. case_decide as Hlt.
  - rewrite list_lookup_delete_ge by lia. f_equal. lia.
  - rewrite list_lookup_delete_lt by lia. done.
Qed.

(** C6 (amended). A remove of [id], held at a [slot] inside the dense
    array, returns; it erases the dense element at [slot] and moves every
    later element down by one, drops the sparse entry of [id] and lowers
    by one exactly the other entries that were above [slot] (an entry
    equal to [slot] is kept), so the store holds the other entities and
    no more.  If, before the remove, every slot was a position of the
    dense array and no two entities shared a slot, then every other
    entity keeps the component it had and every slot is a position of the
    shorter dense array, again with no slot shared. *)
Theorem removeEntity_renumbers cv id slot :
  indexes cv !! id = Some slot →
  (N.to_nat slot < length (components cv))%nat →
  ∃ cv',
    removeEntity id cv = Returns tt cv' ∧
    (* the dense array *)
    length (components cv') = (length (components cv) - 1)%nat ∧
    (∀ i, (i < N.to_nat slot)%nat →
          components cv' !! i = components cv !! i) ∧
    (∀ i, (N.to_nat slot ≤ i)%nat →
          components cv' !! i = components cv !! Datatypes.S i) ∧
    (* the sparse index *)
    indexes cv' !! id = None ∧
    (∀ e s, e ≠ id → indexes cv !! e = Some s →
            indexes cv' !! e = Some (if decide (slot < s) then s - 1 else s)) ∧
    (∀ e, indexes cv !! e = None → indexes cv' !! e = None) ∧
    (∀ e, holds cv' e ↔ holds cv e ∧ e ≠ id) ∧
    (* the store as a map from entities to components *)
    (slots_valid cv → slots_distinct cv →
     (∀ e, e ≠ id → component_of cv' e = component_of cv e) ∧
     slots_valid cv' ∧ slots_distinct cv').
Proof.
  intros Hid Hslot.
  eexists. split; [by apply removeEntity_held|]. simpl.
  split_and!.
  - apply length_delete. by apply lookup_lt_is_Some.
  - intros i Hi. by apply list_lookup_delete_lt.
  - intros i Hi. by apply list_lookup_delete_ge.
  - rewrite removed_lookup. by rewrite decide_True.
  - intros e s Hne He. rewrite removed_lookup, decide_False, He by done.
    done.
  - intros e He. rewrite removed_lookup. case_decide; [done|].
    by rewrite He.
  - intros e. unfold holds; simpl. rewrite removed_lookup.
    destruct (decide (e = id)) as [->|Hne].
    + split; [by intros [? ?] | by intros [_ ?]].
    + rewrite fmap_is_Some. split; [by intros ? | by intros [? _]].
  - intros Hvalid Hdistinct.
    assert (Hother : ∀ e s, e ≠ id → indexes cv !! e = Some s → s ≠ slot).
    { intros e s Hne He ->. apply Hne.
      by apply (slots_distinct_lookup cv e id slot). }
    split_and!.
    + intros e Hne. unfold component_of; simpl.
      rewrite removed_lookup, decide_False by done.
      destruct (indexes cv !! e) as [s|] eqn:He; simpl; [|done].
      apply erased_lookup. by apply (Hother e).
    + intros e s'. simpl. rewrite removed_lookup.
      case_decide as Hne; [done|]. intros Hs'.
      apply fmap_Some in Hs' as (s & He & ->).
      pose proof (slots_valid_lookup _ _ _ Hvalid He) as Hs.
      pose proof (Hother e s Hne He) as Hss.
      rewrite length_delete by (by apply lookup_lt_is_Some).
      case_decide; lia.
    + intros e1 s1'. simpl. rewrite removed_lookup.
      case_decide as Hne1; [done|]. intros Hs1 e2 s2'.
      rewrite removed_lookup. case_decide as Hne2; [done|]. intros Hs2 Heq.
      apply fmap_Some in Hs1 as (s1 & He1 & ->).
      apply fmap_Some in Hs2 as (s2 & He2 & ->).
      pose proof (Hother e1 s1 Hne1 He1).
      pose proof (Hother e2 s2 Hne2 He2).
      apply (slots_distinct_lookup cv e1 e2 s1); [done..|].
      rewrite He2. f_equal. repeat case_decide; lia.
Qed.

(** C1 (what the code does). In a store that already holds [id], a
    second [addComponent] for [id] is not refused: it returns normally,
    leaves the sparse index as it was and appends the new value to the
    dense array, which from then on has one element more than there
    are entities. *)
Theorem addComponent_again_appends cv id slot v :
  indexes cv !! id = Some slot →
  addComponent id v cv =
    Returns tt {| indexes := indexes cv;
                  components := components cv ++ [v] |} ∧
  length (components cv ++ [v]) = Datatypes.S (length (components cv)).
Proof.
  intros Hid. split.
  - unfold addComponent, map_insert. by rewrite Hid.
  - rewrite length_app. simpl. lia.
Qed.

(** C3 (what the code does). [getComponentAt] does not follow the
    insert/remove history of an entity: with entity 0 holding [a], a
    get for entity 1 returns [a], both when 1 was never inserted and
    when its component [b] has just been removed. *)
Theorem getComponentAt_ignores_history (a b : T) :
  (addComponent 0 a ;;; getComponentAt 1)%op empty =
    Returns a {| indexes := {[0 := 0; 1 := 0]}; components := [a] |} ∧
  (addComponent 0 a ;;; addComponent 1 b ;;; removeEntity 1 ;;;
   getComponentAt 1)%op empty =
    Returns a {| indexes := {[0 := 0; 1 := 0]}; components := [a] |}.
Proof. split; reflexivity. Qed.

(** C10. For an entity the store does not hold, [getComponentAt] writes
    the entry [id ↦ 0] into the sparse index before it reads the dense
    array: the store is changed, [id] is afterwards recorded at slot 0,
    and the call returns the dense element at position 0 when there is
    one (and throws, with the entry already written, when the dense
    array is empty). *)
Theorem getComponentAt_absent_writes cv id :
  indexes cv !! id = None →
  ∃ cv',
    indexes cv' = <[id := 0]> (indexes cv) ∧
    components cv' = components cv ∧
    cv' ≠ cv ∧
    indexes cv' !! id = Some 0 ∧
    (∀ c, components cv !! 0%nat = Some c →
          getComponentAt id cv = Returns c cv' ∧
          component_of cv' id = Some c) ∧
    (components cv = [] → getComponentAt id cv = Throws out_of_range cv').
Proof.
  intros Hid.
  exists {| indexes := <[id := 0]> (indexes cv); components := components cv |}.
  simpl. split_and!; try done.
  - intros Heq. apply (f_equal (λ s, indexes s !! id)) in Heq.
    simpl in Heq. rewrite lookup_insert_eq, Hid in Heq. done.
  - apply lookup_insert_eq.
  - intros c Hc. unfold getComponentAt, map_subscript, component_of.
    rewrite Hid. cbv beta iota zeta. change (N.to_nat 0) with 0%nat.
    rewrite Hc. split; [done|]. cbn. by rewrite lookup_insert_eq.
  - intros Hnil. unfold getComponentAt, map_subscript.
    rewrite Hid. cbv beta iota zeta. by rewrite Hnil.
Qed.

End store_facts.

(** Instances on concrete stores of numbers. *)

Lemma removeEntity_renumbers_witness :
  (ComponentVector.indexes three_stored !! 1 = Some 1 ∧
   (N.to_nat 1 < length (ComponentVector.components three_stored))%nat ∧
   ComponentVector.slots_valid three_stored ∧
   ComponentVector.slots_distinct three_stored ∧
   ∃ cv', ComponentVector.removeEntity 1 three_stored = Returns tt cv' ∧
          ComponentVector.indexes cv' !! 2 = Some 1 ∧
          ComponentVector.component_of cv' 2 = Some 12 ∧
          ComponentVector.slots_valid cv') ∧
  (ComponentVector.indexes shared_slot !! 1 = Some 0 ∧
   (N.to_nat 0 < length (ComponentVector.components shared_slot))%nat ∧
   ∃ cv', ComponentVector.removeEntity 1 shared_slot = Returns tt cv' ∧
          ComponentVector.indexes cv' !! 0 = Some 0 ∧
          length (ComponentVector.components cv') = 0%nat).
Proof.
  assert (Hv : ComponentVector.slots_valid three_stored)
    by (apply (bool_decide_unpack _); vm_compute; exact I).
  assert (Hd : ComponentVector.slots_distinct three_stored)
    by (apply (bool_decide_unpack _); vm_compute; exact I).
  assert (H1 : ComponentVector.indexes three_stored !! 1 = Some 1)
    by reflexivity.
  assert (Hl : (N.to_nat 1 < length (ComponentVector.components three_stored))%nat)
    by (simpl; lia).
  assert (H0 : ComponentVector.indexes shared_slot !! 1 = Some 0)
    by reflexivity.
  assert (Hl0 : (N.to_nat 0 < length (ComponentVector.components shared_slot))%nat)
    by (simpl; lia).
  split; split_and!; try done.
  - destruct (removeEntity_renumbers three_stored 1 1 H1 Hl)
      as (cv' & Hrun & _ & _ & _ & _ & Hidx & _ & _ & Hinv).
    destruct (Hinv Hv Hd) as (Hsame & Hv' & _).
    exists cv'. split_and!; try done.
    + by rewrite (Hidx 2 2).
    + rewrite Hsame by done. reflexivity.
  - destruct (removeEntity_renumbers shared_slot 1 0 H0 Hl0)
      as (cv' & Hrun & Hlen & _ & _ & _ & Hidx & _).
    exists cv'. split_and!; try done.
    by rewrite (Hidx 0 0).
Defined.

(** C6 (as stated, refuted). [addComponent 0 100] followed by a lookup of
    the absent entity 1 leaves both entities recorded at slot 0.  On
    that store the remove of entity 1 succeeds and erases the only dense
    element: the surviving entity 0, which was mapped to 100, is mapped
    to nothing, and its slot 0 is no position of the empty dense
    array. *)
Lemma removeEntity_shared_slot_loses_value :
  (ComponentVector.addComponent 0 100 ;;;
   ComponentVector.getComponentAt 1)%op ComponentVector.empty =
    Returns 100 shared_slot ∧
  ComponentVector.indexes shared_slot !! 1 = Some 0 ∧
  ComponentVector.component_of shared_slot 0 = Some 100 ∧
  ComponentVector.removeEntity 1 shared_slot = Returns tt shared_slot_removed ∧
  ComponentVector.holds shared_slot_removed 0 ∧
  ComponentVector.component_of shared_slot_removed 0 = None ∧
  ¬ ComponentVector.slots_valid shared_slot_removed.
Proof.
  split_and!; try reflexivity.
  - by eexists.
  - intros Hvalid.
    pose proof (slots_valid_lookup shared_slot_removed 0 0 Hvalid eq_refl) as Hlt.
    simpl in Hlt. lia.
Qed.

Lemma addComponent_again_appends_witness :
  ComponentVector.indexes one_stored !! 7 = Some 0 ∧
  ComponentVector.addComponent 7 11 one_stored =
    Returns tt {| ComponentVector.indexes := {[7 := 0]};
                  ComponentVector.components := [10; 11] |}.
Proof.
  split; [reflexivity|].
  exact (proj1 (addComponent_again_appends one_stored 7 0 11 eq_refl)).
Defined.

Lemma getComponentAt_absent_writes_witness :
  ComponentVector.indexes one_stored !! 3 = None ∧
  ComponentVector.getComponentAt 3 one_stored =
    Returns 10 {| ComponentVector.indexes := {[7 := 0; 3 := 0]};
                  ComponentVector.components := [10] |}.
Proof.
  split; [reflexivity|].
  destruct (getComponentAt_absent_writes one_stored 3 eq_refl)
    as (cv' & Hi & Hc & _ & _ & Hget & _).
  rewrite (proj1 (Hget 10 eq_refl)).
  f_equal. destruct cv' as [i c]; simpl in *. by subst.
Defined.

(** ** The registry of stores *)

Section registry_facts.
Context {T : Type}.
Implicit Types (m : list (N * ComponentVector.t T)) (id key : N).
Import ComponentManager.

Lemma map_find_insert_new key (cv : ComponentVector.t T) m :
  map_find key m = None → map_find key (map_insert key cv m) = Some cv.
Proof.
  induction m as [|[k v'] rest IH]; simpl; intros Hfind.
  - by rewrite decide_True.
  - destruct (decide (k = key)) as [->|Hne]; [done|].
    destruct (decide (key < k)); simpl.
    + by rewrite decide_True.
    + rewrite (decide_False (P := key = k)) by done. simpl.
      rewrite decide_False by done. auto.
Qed.

Lemma map_find_store key (cv cv' : ComponentVector.t T) m :
  map_find key m = Some cv → map_find key (map_store key cv' m) = Some cv'.
Proof.
  induction m as [|[k v'] rest IH]; simpl; [done|].
  destruct (decide (k = key)) as [->|Hne]; simpl.
  - by rewrite decide_True.
  - rewrite decide_False by done. auto.
Qed.

(** What the registry's [addComponent] does: the store for the type is
    created when missing, and the value is appended to its dense
    array. *)
Lemma addComponent_forwarded key id (v : T) (cm : t T) :
  ∃ cm' cv',
    addComponent key id v cm = Returns tt cm' ∧
    map_find key (componentVectors cm') = Some cv' ∧
    ComponentVector.components cv' =
      ComponentVector.components
        (default ComponentVector.empty (map_find key (componentVectors cm)))
      ++ [v].
Proof.
  unfold addComponent, bind, getComponentVector, arrow, within.
  destruct (map_find key (componentVectors cm)) as [cv|] eqn:Hfind; simpl.
  - rewrite Hfind. simpl. rewrite Hfind. simpl.
    do 2 eexists. split; [reflexivity|]. simpl.
    split; [by apply (map_find_store _ cv)|reflexivity].
  - rewrite (map_find_insert_new _ _ _ Hfind). simpl.
    rewrite (map_find_insert_new _ _ _ Hfind). simpl.
    do 2 eexists. split; [reflexivity|]. simpl.
    split;
      [apply (map_find_store _ ComponentVector.empty);
       by apply map_find_insert_new | reflexivity].
Qed.

(** When the fan-out returns, no store holds the entity any more. *)
Lemma removeEntity_loop_returns id m m' :
  removeEntity_loop id m = Returns tt m' →
  Forall (λ kv, ComponentVector.indexes kv.2 !! id = None) m'.
Proof.
  revert m'. induction m as [|[k cv] rest IH]; simpl; intros m' Hrun.
  - by inversion Hrun.
  - unfold ComponentVector.removeEntity in Hrun.
    destruct (ComponentVector.indexes cv !! id) as [slot|]; [|done].
    case_decide; [|done].
    destruct (removeEntity_loop id rest) as [[] rest'| |]; [|done..].
    inversion Hrun; subst. constructor; [|by apply IH].
    simpl. rewrite removed_lookup. by rewrite decide_True.
Qed.

(** C5 (what the code does). The fan-out does not skip a store that
    lacks the entity: the exception of that store's [removeEntity]
    leaves the loop.  With entity 0 only in the store keyed 10 and
    entity 1 only in the store keyed 20, removing entity 0 empties
    store 10 and then throws at store 20; removing entity 1 throws at
    store 10 and never reaches store 20, which still holds it. *)
Theorem removeEntity_throws_on_absent (a b : T) :
  (addComponent 10 0 a ;;; addComponent 20 1 b ;;; removeEntity 0)%op empty =
    Throws out_of_range
      {| componentVectors :=
           [(10, {| ComponentVector.indexes := ∅;
                    ComponentVector.components := [] |});
            (20, {| ComponentVector.indexes := {[1 := 0]};
                    ComponentVector.components := [b] |})] |} ∧
  (addComponent 10 0 a ;;; addComponent 20 1 b ;;; removeEntity 1)%op empty =
    Throws out_of_range
      {| componentVectors :=
           [(10, {| ComponentVector.indexes := {[0 := 0]};
                    ComponentVector.components := [a] |});
            (20, {| ComponentVector.indexes := {[1 := 0]};
                    ComponentVector.components := [b] |})] |}.
Proof. split; reflexivity. Qed.

End registry_facts.

(** ** Entities *)

Section entity_facts.
Context {T : Type}.
Implicit Types (w : ECSManager.t T) (id : N).
Import ECSManager.

Lemma generateEntityID_pool w pool id :
  reusableIDs w = pool ++ [id] →
  generateEntityID w = Returns id (set_reusableIDs pool w).
Proof.
  intros Hpool. unfold generateEntityID. rewrite Hpool.
  rewrite decide_True by (rewrite length_app; simpl; lia).
  by rewrite last_snoc, removelast_last.
Qed.

Lemma generateEntityID_counter w :
  reusableIDs w = [] →
  generateEntityID w =
  Returns (nextID w) (set_nextID (to_unsigned (nextID w + 1)) w).
Proof.
  intros Hpool. unfold generateEntityID. rewrite Hpool.
  by rewrite decide_False by (simpl; lia).
Qed.

(** The entity [createEntity] hands back once the ID is chosen. *)
Lemma createEntity_stored w w1 id :
  entities_keyed w →
  generateEntityID w = Returns id w1 →
  entities w1 = entities w →
  ∃ w', createEntity w = Returns {| entityID := id |} w' ∧
        reusableIDs w' = reusableIDs w1 ∧ nextID w' = nextID w1 ∧
        components w' = components w1 ∧
        entities w' !! id = Some {| entityID := id |} ∧
        (∀ id', id' ≠ id → entities w' !! id' = entities w !! id').
Proof.
  intros Hkeyed Hgen Hent. unfold createEntity, bind. rewrite Hgen, Hent.
  destruct (entities w !! id) as [e|] eqn:He.
  - rewrite He.
    assert (e = {| entityID := id |}) as ->.
    { destruct e as [k]. f_equal. exact (Hkeyed id _ He). }
    eexists. split; [reflexivity|]. simpl. split_and!; done.
  - rewrite lookup_insert_eq. eexists. split; [reflexivity|]. simpl.
    split_and!; try done.
    + apply lookup_insert_eq.
    + intros id' Hne. by rewrite lookup_insert_ne.
Qed.

Lemma destroyEntity_not_live w id :
  entities w !! id = None → destroyEntity id w = Throws out_of_range w.
Proof. intros Hid. unfold destroyEntity. by rewrite Hid. Qed.

(** When [destroyEntity] returns, the entity was live, no store holds
    it any more, and only then has its ID joined the reuse pool. *)
Lemma destroyEntity_returns w w' id :
  destroyEntity id w = Returns tt w' →
  live w id ∧
  Forall (λ kv, ComponentVector.indexes kv.2 !! id = None)
         (ComponentManager.componentVectors (components w')) ∧
  entities w' = delete id (entities w) ∧
  reusableIDs w' = reusableIDs w ++ [id] ∧
  nextID w' = nextID w.
Proof.
  unfold destroyEntity, live. destruct (entities w !! id) as [e|]; [|done].
  unfold bind, within, ComponentManager.removeEntity, within.
  destruct (ComponentManager.removeEntity_loop id _) as [[] m'| |] eqn:Hloop;
    [|done..].
  intros Hret. inversion Hret; subst; simpl. split_and!; try done.
  by apply (removeEntity_loop_returns id _ _ Hloop).
Qed.

Lemma entities_keyed_delete w w' id :
  entities_keyed w → entities w' = delete id (entities w) →
  entities_keyed w'.
Proof.
  unfold entities_keyed. intros Hk ->. by apply map_Forall_delete.
Qed.

(** The double insert of C1 seen from the manager: both calls return and
    the store for the type ends with two components for one entity. *)
Lemma addComponent_twice_through_manager (v1 v2 : T) :
  ∃ w,
    (e <- createEntity ;;
     addComponent Position (entityID e) v1 ;;;
     addComponent Position (entityID e) v2 ;;;
     getComponentVector Position)%op new =
    Returns {| ComponentVector.indexes := {[0 := 0]};
               ComponentVector.components := [v1; v2] |} w.
Proof. eexists. reflexivity. Qed.

(** C4 (what the code does). [destroyEntity] on a live entity throws
    whenever some store does not hold it.  With entity 0 holding only a
    [Velocity] (store 20) and entity 1 only a [Position] (store 10),
    destroying entity 0 throws at store 10: the entity stays live,
    keeps its component in store 20 and its ID is not freed.  With the
    two types exchanged, store 10 is emptied before store 20 throws,
    and the entity stays live without its component. *)
Theorem destroyEntity_live_throws (a b : T) :
  (∃ w,
     (e0 <- createEntity ;; e1 <- createEntity ;;
      addComponent Velocity (entityID e0) b ;;;
      addComponent Position (entityID e1) a ;;;
      destroyEntity (entityID e0))%op new = Throws out_of_range w ∧
     entities w !! 0 = Some {| entityID := 0 |} ∧ reusableIDs w = [] ∧
     ComponentManager.componentVectors (components w) =
       [(10, {| ComponentVector.indexes := {[1 := 0]};
                ComponentVector.components := [a] |});
        (20, {| ComponentVector.indexes := {[0 := 0]};
                ComponentVector.components := [b] |})]) ∧
  (∃ w,
     (e0 <- createEntity ;; e1 <- createEntity ;;
      addComponent Position (entityID e0) a ;;;
      addComponent Velocity (entityID e1) b ;;;
      destroyEntity (entityID e0))%op new = Throws out_of_range w ∧
     entities w !! 0 = Some {| entityID := 0 |} ∧ reusableIDs w = [] ∧
     ComponentManager.componentVectors (components w) =
       [(10, {| ComponentVector.indexes := ∅;
                ComponentVector.components := [] |});
        (20, {| ComponentVector.indexes := {[1 := 0]};
                ComponentVector.components := [b] |})]).
Proof. split; eexists; split_and!; reflexivity. Qed.

(** C8 (amended). [addComponent<T>] raises no error: when [T] does not
    derive from [Component] the call returns normally and leaves the
    manager as it was; when it does, the value is forwarded to the
    store for [T], created if missing, whether or not [id] is live. *)
Theorem addComponent_guard (C : ctype) id (v : T) w :
  (derives_Component C = false → addComponent C id v w = Returns tt w) ∧
  (derives_Component C = true →
   ∃ cm' cv',
     addComponent C id v w = Returns tt (set_components cm' w) ∧
     ComponentManager.addComponent (typekey C) id v (components w) =
       Returns tt cm' ∧
     ComponentManager.map_find (typekey C)
       (ComponentManager.componentVectors cm') = Some cv' ∧
     ComponentVector.components cv' =
       ComponentVector.components
         (default ComponentVector.empty
            (ComponentManager.map_find (typekey C)
               (ComponentManager.componentVectors (components w))))
       ++ [v]).
Proof.
  unfold addComponent. split; intros ->; [done|].
  destruct (addComponent_forwarded (typekey C) id v (components w))
    as (cm' & cv' & Hrun & Hfind & Hdense).
  exists cm', cv'. unfold within. rewrite Hrun. done.
Qed.

End entity_facts.

(** C8 (as stated, refuted). On a new manager, a value whose type does
    not derive from [Component] is accepted without any error, and a
    component for entity 0, which is not live, is accepted and stored. *)
Lemma addComponent_raises_nothing :
  (ECSManager.addComponent Label 0 5 (ECSManager.new (T := N)) =
     Returns tt ECSManager.new ∧
   ¬ threw (ECSManager.addComponent Label 0 5 (ECSManager.new (T := N)))) ∧
  (¬ ECSManager.live (ECSManager.new (T := N)) 0 ∧
   ¬ threw (ECSManager.addComponent Position 0 5 (ECSManager.new (T := N))) ∧
   ∃ w', ECSManager.addComponent Position 0 5 ECSManager.new = Returns tt w' ∧
         ComponentManager.componentVectors (ECSManager.components w') =
           [(10, {| ComponentVector.indexes := {[0 := 0]};
                    ComponentVector.components := [5] |})]).
Proof.
  split_and!.
  - reflexivity.
  - intros [].
  - intros [e He]. simpl in He. by rewrite lookup_empty in He.
  - intros [].
  - eexists. split; reflexivity.
Qed.

Lemma addComponent_guard_witness :
  derives_Component Label = false ∧ derives_Component Position = true ∧
  ECSManager.addComponent Label 7 5 (ECSManager.new (T := N)) =
    Returns tt ECSManager.new ∧
  returned (ECSManager.addComponent Position 7 5 (ECSManager.new (T := N))).
Proof.
  split_and!; [done..| |].
  - exact (proj1 (addComponent_guard Label 7 5 ECSManager.new) eq_refl).
  - destruct (proj2 (addComponent_guard Position 7 5 (ECSManager.new (T := N)))
                eq_refl)
      as (cm' & cv' & -> & _). exact I.
Defined.

(** ** Systems *)

Section system_facts.
Context {T : Type}.
Implicit Types (w : ECSManager.t T).
Import ECSManager.

(** C2 (what the code does). For a type [R] deriving [RenderSystem],
    [registerSystem<R>] constructs two objects of type [R], appends a
    copy of the first to the render-system list and a copy of the
    second to the plain-system list, and calls [init] once, on the
    second local object: neither listed element ever receives [init].
    A following [render] reaches the listed copy, whose dynamic type is
    the base class.  For a type deriving only [System], [init] is
    likewise called on the local object after the copy was listed. *)
Theorem registerSystem_render_listed_twice (n : N) w0 :
  (∃ w,
     registerSystem (UserRenderSystem n) w0 = Returns tt w ∧
     trace w = trace w0 ++
               [Constructed (UserRenderSystem n) (objects w0);
                Copied RenderSystem (objects w0) (1 + objects w0);
                Constructed (UserRenderSystem n) (2 + objects w0);
                Copied System (2 + objects w0) (3 + objects w0);
                Called hook_init (2 + objects w0) (UserRenderSystem n)] ∧
     rsystems w = rsystems w0 ++
                  [{| address := 1 + objects w0;
                      dynamic_type := RenderSystem |}] ∧
     systems w = systems w0 ++
                 [{| address := 3 + objects w0;
                     dynamic_type := System |}]) ∧
  (∃ w : ECSManager.t T,
     (registerSystem (UserRenderSystem n) ;;; render)%op new = Returns tt w ∧
     trace w = [Constructed (UserRenderSystem n) 0; Copied RenderSystem 0 1;
                Constructed (UserRenderSystem n) 2; Copied System 2 3;
                Called hook_init 2 (UserRenderSystem n);
                Called hook_render 1 RenderSystem]) ∧
  (∃ w : ECSManager.t T,
     registerSystem (UserSystem n) new = Returns tt w ∧
     trace w = [Constructed (UserSystem n) 0; Copied System 0 1;
                Called hook_init 0 (UserSystem n)] ∧
     systems w = [{| address := 1; dynamic_type := System |}] ∧
     rsystems w = []).
Proof.
  split_and!.
  - destruct w0 as [sys rsys cm ents next pool tr objs].
    eexists. split; [cbv -[app]; reflexivity|]. cbn.
    split_and!; [|reflexivity..].
    by rewrite <- !app_assoc.
  - eexists. split; [cbv; reflexivity|reflexivity].
  - eexists. split; [cbv; reflexivity|]. split_and!; reflexivity.
Qed.

End system_facts.

(** ** Uniqueness of entity IDs *)

Section allocator_facts.
Context {T : Type}.
Implicit Types (w : ECSManager.t T) (id issued : N) (held : list N).
Import ECSManager.

Lemma to_unsigned_small n : n < 2 ^ 32 → to_unsigned n = n.
Proof. intros Hn. unfold to_unsigned. by apply N.mod_small. Qed.

(** A creation that draws from the counter. *)
Lemma create_from_counter issued w held :
  ids_consistent issued w held → reusableIDs w = [] → issued < 2 ^ 32 →
  ∃ w', createEntity w = Returns {| entityID := issued |} w' ∧
        reusableIDs w' = [] ∧
        ids_consistent (issued + 1) w' (held ++ [issued]).
Proof.
  intros [Hc Hi Hs Hk Hnd Hhl Hpn Hpd Hb] Hpool Hlt.
  rewrite to_unsigned_small in Hc by done.
  destruct (createEntity_stored w _ _ Hk (generateEntityID_counter _ Hpool))
    as (w' & Hrun & Hp' & Hn' & Hc' & Hnew & Hold); [done|].
  simpl in Hp', Hn', Hc'. rewrite Hc in *.
  assert (Hfresh : ¬ live w issued).
  { intros Hl. specialize (Hb issued (or_introl Hl)). lia. }
  assert (Hlive' : ∀ id, live w' id ↔ id = issued ∨ live w id).
  { intros id. unfold live. destruct (decide (id = issued)) as [->|Hne].
    - rewrite Hnew. split; [by left | by eexists].
    - rewrite (Hold id Hne). split; [by right | by intros [?|?]]. }
  exists w'. split; [done|]. split; [congruence|]. split.
  - done.
  - lia.
  - congruence.
  - intros id e He. destruct (decide (id = issued)) as [->|Hne].
    + rewrite Hnew in He. by inversion He.
    + rewrite (Hold id Hne) in He. exact (Hk id e He).
  - apply NoDup_app. split_and!; [done| |apply NoDup_singleton].
    intros x Hx ->%list_elem_of_singleton. by apply Hfresh, Hhl.
  - intros id. rewrite elem_of_app, list_elem_of_singleton, Hlive', Hhl.
    tauto.
  - rewrite Hp', Hpool. apply NoDup_nil_2.
  - intros id. rewrite Hp', Hpool. by intros ?%elem_of_nil.
  - intros id. rewrite Hp', Hpool, Hlive', elem_of_nil.
    intros [[->|Hl]|[]]; [lia|].
    specialize (Hb id (or_introl Hl)). lia.
Qed.

(** A creation that reuses a pooled ID. *)
Lemma create_from_pool issued w held pool id :
  ids_consistent issued w held → reusableIDs w = pool ++ [id] →
  ∃ w', createEntity w = Returns {| entityID := id |} w' ∧
        ids_consistent issued w' (held ++ [id]).
Proof.
  intros [Hc Hi Hs Hk Hnd Hhl Hpn Hpd Hb] Hpool.
  destruct (createEntity_stored w _ _ Hk (generateEntityID_pool _ _ _ Hpool))
    as (w' & Hrun & Hp' & Hn' & Hc' & Hnew & Hold); [done|].
  simpl in Hp', Hn', Hc'. rewrite Hpool in *.
  apply NoDup_app in Hpn as (Hpn & Hsep & _).
  assert (Hdead : ¬ live w id).
  { apply Hpd. rewrite elem_of_app, list_elem_of_singleton. by right. }
  assert (Hlive' : ∀ id', live w' id' ↔ id' = id ∨ live w id').
  { intros id'. unfold live. destruct (decide (id' = id)) as [->|Hne].
    - rewrite Hnew. split; [by left | by eexists].
    - rewrite (Hold id' Hne). split; [by right | by intros [?|?]]. }
  exists w'. split; [done|]. split.
  - congruence.
  - done.
  - congruence.
  - intros id' e He. destruct (decide (id' = id)) as [->|Hne].
    + rewrite Hnew in He. by inversion He.
    + rewrite (Hold id' Hne) in He. exact (Hk id' e He).
  - apply NoDup_app. split_and!; [done| |apply NoDup_singleton].
    intros x Hx ->%list_elem_of_singleton. by apply Hdead, Hhl.
  - intros id'. rewrite elem_of_app, list_elem_of_singleton, Hlive', Hhl.
    tauto.
  - by rewrite Hp'.
  - intros id'. rewrite Hp', Hlive'. intros Hin [->|Hl].
    + by apply (Hsep id Hin), list_elem_of_singleton.
    + apply (Hpd id'); [|done]. rewrite elem_of_app. by left.
  - intros id'. rewrite Hp', Hlive'. intros [[->|Hl]|Hin].
    + apply Hb. right. rewrite elem_of_app, list_elem_of_singleton.
      by right.
    + apply Hb. by left.
    + apply Hb. right. rewrite elem_of_app. by left.
Qed.

(** A destruction: refused for an ID that is not live, otherwise the
    ID moves from the live entities to the pool. *)
Lemma destroy_consistent issued w held id :
  ids_consistent issued w held →
  (¬ live w id ∧ destroyEntity id w = Throws out_of_range w) ∨
  (live w id ∧
   ∃ w', destroyEntity id w = Returns tt w' ∧
         ids_consistent issued w' (filter (λ x, x ≠ id) held)).
Proof.
  intros [Hc Hi Hs Hk Hnd Hhl Hpn Hpd Hb].
  destruct (entities w !! id) as [e|] eqn:He.
  - right. split; [by eexists|].
    assert (Hl : live w id) by by eexists.
    unfold destroyEntity, bind, within. rewrite He, Hs. simpl.
    eexists. split; [reflexivity|].
    assert (Hlive' : ∀ id' (c : ComponentManager.t T) l,
              live (set_reusableIDs l
                      (set_entities (delete id (entities w))
                         (set_components c w))) id'
              ↔ live w id' ∧ id' ≠ id).
    { intros id' c l. unfold live. simpl.
      rewrite lookup_delete_is_Some.
      split; intros [? ?]; split; done || congruence. }
    split; simpl.
    + done.
    + done.
    + done.
    + unfold entities_keyed. simpl. by apply map_Forall_delete.
    + by apply NoDup_filter.
    + intros id'. rewrite list_elem_of_filter, Hlive', Hhl. tauto.
    + apply NoDup_app. split_and!; [done| |apply NoDup_singleton].
      intros x Hx ->%list_elem_of_singleton. by apply (Hpd id).
    + intros id'. rewrite elem_of_app, list_elem_of_singleton, Hlive'.
      intros [Hin| ->] [Hl' Hne]; [|done]. by apply (Hpd id').
    + intros id'. rewrite elem_of_app, list_elem_of_singleton, Hlive'.
      intros [[Hl' _]|[Hin| ->]]; apply Hb; auto.
  - left. split; [by intros [? ?]; congruence|].
    by apply destroyEntity_not_live.
Qed.

(** Any run that draws at most [2 ^ 32] values from the counter keeps
    the allocator consistent, and never meets undefined behaviour. *)
Lemma run_consistent cs issued w held :
  ids_consistent issued w held →
  issued + creations cs ≤ 2 ^ 32 →
  ∃ issued' w' held',
    run cs (w, held) = Some (w', held') ∧
    ids_consistent issued' w' held' ∧
    issued ≤ issued' ≤ issued + creations cs.
Proof.
  revert issued w held.
  induction cs as [|[|id] cs IH]; intros issued w held Hinv Hbound.
  - exists issued, w, held. simpl in *. split_and!; [done..|lia|lia].
  - cbn [creations] in Hbound. cbn [run step fst snd].
    destruct (reusableIDs w) as [|id pool _] eqn:Hpool using rev_ind.
    + destruct (create_from_counter _ _ _ Hinv Hpool)
        as (w' & -> & _ & Hinv'); [lia|].
      destruct (IH _ _ _ Hinv') as (k & w'' & held'' & Hrun & ? & ?); [lia|].
      exists k, w'', held''. cbn [creations]. split_and!; [done..|lia|lia].
    + destruct (create_from_pool _ _ _ _ _ Hinv Hpool) as (w' & -> & Hinv').
      destruct (IH _ _ _ Hinv') as (k & w'' & held'' & Hrun & ? & ?); [lia|].
      exists k, w'', held''. cbn [creations]. split_and!; [done..|lia|lia].
  - cbn [creations] in Hbound. cbn [run step fst snd].
    destruct (destroy_consistent _ _ _ id Hinv)
      as [[_ ->]|[_ (w' & -> & Hinv')]].
    + destruct (IH _ _ _ Hinv) as (k & w'' & held'' & Hrun & ? & ?); [lia|].
      exists k, w'', held''. cbn [creations]. split_and!; [done..|lia|lia].
    + destruct (IH _ _ _ Hinv') as (k & w'' & held'' & Hrun & ? & ?); [lia|].
      exists k, w'', held''. cbn [creations]. split_and!; [done..|lia|lia].
Qed.

Lemma new_consistent : ids_consistent 0 (new (T := T)) [].
Proof.
  assert (Hdead : ∀ id, ¬ live (new (T := T)) id).
  { intros id [e He]. simpl in He. by rewrite lookup_empty in He. }
  split; simpl.
  - done.
  - lia.
  - done.
  - unfold entities_keyed; simpl. apply map_Forall_empty.
  - apply NoDup_nil_2.
  - intros id. rewrite elem_of_nil. split; [done|apply Hdead].
  - apply NoDup_nil_2.
  - intros id _. apply Hdead.
  - intros id [Hl|Hin%elem_of_nil]; [by apply Hdead in Hl|done].
Qed.

(** C9 (amended). For every sequence of [createEntity] and
    [destroyEntity] calls on a new manager that contains at most
    [2 ^ 32] creations, the run completes, the IDs of the entities
    created and not yet destroyed are pairwise distinct and are exactly
    the live ones, and every ID in the reuse pool occurs there once, is
    not live, and lies, like every live ID, below the first counter
    value not yet issued. *)
Theorem ids_unique_until_wrap (cs : list call) :
  creations cs ≤ 2 ^ 32 →
  ∃ w held issued,
    run cs (new (T := T), []) = Some (w, held) ∧
    NoDup held ∧
    (∀ id, id ∈ held ↔ live w id) ∧
    NoDup (reusableIDs w) ∧
    (∀ id, id ∈ reusableIDs w → ¬ live w id ∧ id ∉ held) ∧
    issued ≤ creations cs ∧
    nextID w = to_unsigned issued ∧
    (∀ id, live w id ∨ id ∈ reusableIDs w → id < issued).
Proof.
  intros Hbound.
  destruct (run_consistent cs 0 new [] new_consistent)
    as (issued & w & held & Hrun & [Hc Hi Hs Hk Hnd Hhl Hpn Hpd Hb] & Hle);
    [lia|].
  exists w, held, issued. split_and!; try done; [|lia].
  intros id Hin. split; [by apply Hpd|]. rewrite Hhl. by apply Hpd.
Qed.

Lemma run_app cs1 cs2 (s : ECSManager.t T * list N) :
  run (cs1 ++ cs2) s = run cs1 s ≫= run cs2.
Proof.
  revert s. induction cs1 as [|c cs1 IH]; intros s; simpl; [done|].
  destruct (step c s) as [s'|]; simpl; [apply IH|done].
Qed.

(** Creations only: the [n] first counter values are handed out in
    order and all stay live. *)
Lemma run_creations (n : nat) :
  N.of_nat n ≤ 2 ^ 32 →
  ∃ w held,
    run (repeat CreateEntity n) (new (T := T), []) = Some (w, held) ∧
    ids_consistent (N.of_nat n) w held ∧
    reusableIDs w = [] ∧
    (∀ id, id < N.of_nat n → id ∈ held).
Proof.
  induction n as [|n IH]; intros Hn.
  - exists new, []. split_and!; [done|apply new_consistent|done|].
    intros id Hid. simpl in Hid. lia.
  - destruct IH as (w & held & Hrun & Hinv & Hpool & Hall); [lia|].
    destruct (create_from_counter _ _ _ Hinv Hpool)
      as (w' & Hcreate & Hpool' & Hinv'); [lia|].
    exists w', (held ++ [N.of_nat n]).
    replace (N.of_nat (Datatypes.S n)) with (N.of_nat n + 1) by lia.
    split_and!; [|done|done|].
    + cbn [repeat]. rewrite repeat_cons, run_app, Hrun. simpl.
      by rewrite Hcreate.
    + intros id Hid. rewrite elem_of_app, list_elem_of_singleton.
      destruct (decide (id = N.of_nat n)); [by right|].
      left. apply Hall. lia.
Qed.

(** C7 (amended). [createEntity] hands out the last ID of the reuse pool
    when the pool is not empty (the ID freed by the latest
    [destroyEntity]), and otherwise the value of the counter, which it
    then advances.  In every state reached from a new manager by calls
    of which fewer than [2 ^ 32] are creations, that counter value is
    unused: it is not live and lies above every live ID.  Create,
    create, destroy 0, create yields 0, 1 and 0 again. *)
Theorem createEntity_reuses_or_counts :
  (∀ w pool id,
     entities_keyed w → reusableIDs w = pool ++ [id] →
     ∃ w', createEntity w = Returns {| entityID := id |} w' ∧
           reusableIDs w' = pool ∧ nextID w' = nextID w ∧ live w' id) ∧
  (∀ w id w1,
     entities_keyed w → destroyEntity id w = Returns tt w1 →
     ∃ w', createEntity w1 = Returns {| entityID := id |} w') ∧
  (∀ w,
     entities_keyed w → reusableIDs w = [] →
     ∃ w', createEntity w = Returns {| entityID := nextID w |} w' ∧
           reusableIDs w' = [] ∧
           nextID w' = to_unsigned (nextID w + 1) ∧ live w' (nextID w)) ∧
  (∀ cs w held,
     run cs (new (T := T), []) = Some (w, held) →
     creations cs < 2 ^ 32 → reusableIDs w = [] →
     ¬ live w (nextID w) ∧
     (∀ id, live w id → id < nextID w) ∧
     ∃ w', createEntity w = Returns {| entityID := nextID w |} w' ∧
           nextID w' = to_unsigned (nextID w + 1)) ∧
  (∃ w' : ECSManager.t T,
     (e0 <- createEntity ;; e1 <- createEntity ;;
      destroyEntity (entityID e0) ;;;
      e2 <- createEntity ;;
      ret (entityID e0, entityID e1, entityID e2))%op new =
     Returns (0, 1, 0) w').
Proof.
  split_and!.
  - intros w pool id Hk Hpool.
    destruct (createEntity_stored w _ id Hk (generateEntityID_pool _ _ _ Hpool))
      as (w' & Hrun & Hp & Hn & _ & Hlive & _); [done|].
    exists w'. split_and!; try done. by eexists.
  - intros w id w1 Hk Hdestroy.
    apply destroyEntity_returns in Hdestroy as (_ & _ & Hent & Hpool & _).
    destruct (createEntity_stored w1 _ id (entities_keyed_delete _ _ _ Hk Hent)
                (generateEntityID_pool _ _ _ Hpool))
      as (w' & Hrun & _); [done|].
    by exists w'.
  - intros w Hk Hpool.
    destruct (createEntity_stored w _ _ Hk (generateEntityID_counter _ Hpool))
      as (w' & Hrun & Hp & Hn & _ & Hlive & _); [done|].
    simpl in Hp, Hn. exists w'. split_and!; try done; [congruence|by eexists].
  - intros cs w held Hrun Hbound Hpool.
    destruct (run_consistent cs 0 new [] new_consistent)
      as (issued & w0 & held0 & Hrun0 & Hinv & Hle); [lia|].
    rewrite Hrun in Hrun0. injection Hrun0 as <- <-.
    assert (Hlt : issued < 2 ^ 32) by lia.
    assert (Hnext : nextID w = issued).
    { rewrite (ic_counter _ _ _ Hinv). by apply to_unsigned_small. }
    destruct (create_from_counter _ _ _ Hinv Hpool Hlt)
      as (w' & Hcreate & _ & Hinv').
    rewrite Hnext. split_and!.
    + intros Hl. pose proof (ic_below _ _ _ Hinv issued (or_introl Hl)). lia.
    + intros id Hl. exact (ic_below _ _ _ Hinv id (or_introl Hl)).
    + exists w'. split; [done|]. exact (ic_counter _ _ _ Hinv').
  - eexists. reflexivity.
Qed.

End allocator_facts.

Lemma createEntity_reuses_or_counts_witness :
  (ECSManager.entities_keyed two_pooled ∧
   ECSManager.reusableIDs two_pooled = [3] ++ [5] ∧
   ∃ w', ECSManager.createEntity two_pooled = Returns {| entityID := 5 |} w' ∧
         ECSManager.reusableIDs w' = [3] ∧ ECSManager.nextID w' = 6) ∧
  (creations two_creations < 2 ^ 32 ∧
   ∃ w held w',
     run two_creations (ECSManager.new (T := N), []) = Some (w, held) ∧
     ECSManager.reusableIDs w = [] ∧
     ¬ ECSManager.live w 2 ∧
     ECSManager.createEntity w = Returns {| entityID := 2 |} w' ∧
     ECSManager.nextID w' = 3).
Proof.
  split.
  - assert (Hk : ECSManager.entities_keyed two_pooled)
      by (apply (bool_decide_unpack _); vm_compute; exact I).
    split_and!; [done..|].
    destruct (proj1 (@createEntity_reuses_or_counts N) two_pooled [3] 5 Hk eq_refl)
      as (w' & Hrun & Hpool & Hnext & _).
    by exists w'.
  - assert (Hb : creations two_creations < 2 ^ 32) by (simpl; lia).
    split; [done|].
    assert (Hrun : ∃ w held,
              run two_creations (ECSManager.new (T := N), []) = Some (w, held) ∧
              ECSManager.reusableIDs w = [] ∧ ECSManager.nextID w = 2)
      by (eexists _, _; split_and!; reflexivity).
    destruct Hrun as (w & held & Hrun & Hpool & Hnext).
    destruct (proj1 (proj2 (proj2 (proj2 (@createEntity_reuses_or_counts N))))
                two_creations w held Hrun Hb Hpool)
      as (Hfresh & _ & w' & Hcreate & Hnext').
    rewrite Hnext in *. by exists w, held, w'.
Defined.

(** C7 (as stated, refuted). After [2 ^ 32] creations on a new manager
    the reuse pool is empty and the counter has wrapped to 0, yet entity
    0 is live: [createEntity] returns the counter value 0, which is in
    use. *)
Lemma createEntity_counter_value_in_use :
  ∃ w held w',
    run (repeat CreateEntity (N.to_nat (2 ^ 32)))
        (ECSManager.new (T := N), []) = Some (w, held) ∧
    ECSManager.reusableIDs w = [] ∧
    ECSManager.nextID w = 0 ∧
    ECSManager.live w 0 ∧
    ECSManager.createEntity w = Returns {| entityID := 0 |} w'.
Proof.
  remember (N.to_nat (2 ^ 32)) as n eqn:Hn.
  assert (Hof : N.of_nat n = 2 ^ 32) by (subst n; apply N2Nat.id).
  clear Hn.
  destruct (run_creations (T := N) n) as (w & held & Hrun & Hinv & Hpool & Hall);
    [lia|].
  rewrite Hof in Hinv, Hall.
  assert (Hnext : ECSManager.nextID w = 0).
  { rewrite (ic_counter _ _ _ Hinv). reflexivity. }
  destruct (createEntity_stored w _ _ (ic_keyed _ _ _ Hinv)
              (generateEntityID_counter _ Hpool))
    as (w' & Hcreate & _); [done|].
  rewrite Hnext in Hcreate.
  exists w, held, w'. split_and!; try done.
  apply (ic_held_live _ _ _ Hinv). apply Hall. lia.
Qed.

Lemma ids_unique_until_wrap_witness :
  creations scenario_A ≤ 2 ^ 32 ∧
  ∃ w held,
    run scenario_A (ECSManager.new (T := N), []) = Some (w, held) ∧
    NoDup held.
Proof.
  assert (Hbound : creations scenario_A ≤ 2 ^ 32) by (simpl; lia).
  split; [done|].
  destruct (ids_unique_until_wrap (T := N) scenario_A Hbound)
    as (w & held & issued & Hrun & Hnodup & _).
  by exists w, held.
Defined.

(** C9 (as stated, refuted). After [2 ^ 32] creations on a new manager
    the counter has wrapped to 0 while entity 0 is still live; the next
    [createEntity] returns the ID 0 again, so the application holds two
    entities with the same ID. *)
Lemma ids_repeat_after_wrap :
  ∃ w held w',
    run (repeat CreateEntity (N.to_nat (2 ^ 32)))
        (ECSManager.new (T := N), []) = Some (w, held) ∧
    ECSManager.live w 0 ∧ 0 ∈ held ∧
    ECSManager.createEntity w = Returns {| entityID := 0 |} w' ∧
    run (repeat CreateEntity (N.to_nat (2 ^ 32)) ++ [CreateEntity])
        (ECSManager.new (T := N), []) = Some (w', held ++ [0]) ∧
    ¬ NoDup (held ++ [0]).
Proof.
  remember (N.to_nat (2 ^ 32)) as n eqn:Hn.
  assert (Hof : N.of_nat n = 2 ^ 32) by (subst n; apply N2Nat.id).
  clear Hn.
  destruct (run_creations (T := N) n) as (w & held & Hrun & Hinv & Hpool & Hall);
    [lia|].
  rewrite Hof in Hinv, Hall.
  assert (Hin : 0 ∈ held) by (apply Hall; lia).
  assert (Hnext : ECSManager.nextID w = 0).
  { rewrite (ic_counter _ _ _ Hinv). reflexivity. }
  destruct (createEntity_stored w _ _ (ic_keyed _ _ _ Hinv)
              (generateEntityID_counter _ Hpool))
    as (w' & Hcreate & _); [done|].
  rewrite Hnext in Hcreate.
  exists w, held, w'. split_and!; try done.
  - by apply (ic_held_live _ _ _ Hinv).
  - rewrite run_app, Hrun. simpl. by rewrite Hcreate.
  - rewrite NoDup_app. intros (_ & Hsep & _).
    apply (Hsep 0 Hin). by apply list_elem_of_singleton.
Qed.

(** * Further properties of the code *)

(** ** Stores: insertion, lookup and removal together *)

Section store_more.
Context {T : Type}.
Implicit Types (cv : ComponentVector.t T) (id e : N) (v : T).
Import ComponentVector.

Lemma renumber_fmap index (m : gmap N N) :
  renumber index m =
  (λ value, if decide (index < value) then value - 1 else value) <$> m.
Proof. apply map_eq. intros key. by rewrite renumber_lookup, lookup_fmap. Qed.

(** The slot [addComponent] picks while the dense array has fewer than
    [2 ^ 32] elements. *)
Lemma addComponent_fresh cv id v :
  indexes cv !! id = None →
  N.of_nat (length (components cv)) < 2 ^ 32 →
  addComponent id v cv =
  Returns tt {| indexes := <[id := N.of_nat (length (components cv))]> (indexes cv);
                components := components cv ++ [v] |}.
Proof.
  intros Hid Hlen. unfold addComponent, map_insert. rewrite Hid.
  do 2 f_equal. destruct (components cv) as [|c l] eqn:Hl; [done|].
  rewrite <- Hl in *. unfold to_unsigned. by rewrite N.mod_small.
Qed.

(** X1. Insert then lookup: in a store that does not hold [id] and has
    fewer than [2 ^ 32] components, [addComponent id v] followed by
    [getComponentAt id] returns [v], and the lookup leaves the store as
    the insert made it. *)
Theorem addComponent_then_getComponentAt cv id v :
  indexes cv !! id = None →
  N.of_nat (length (components cv)) < 2 ^ 32 →
  ∃ cv', addComponent id v cv = Returns tt cv' ∧
         getComponentAt id cv' = Returns v cv' ∧
         (addComponent id v ;;; getComponentAt id)%op cv = Returns v cv'.
Proof.
  intros Hid Hlen. eexists. split; [by apply addComponent_fresh|].
  assert (Hget : ∀ cv1, cv1 = {| indexes := <[id := N.of_nat (length (components cv))]> (indexes cv);
                components := components cv ++ [v] |} →
            getComponentAt id cv1 = Returns v cv1).
  { intros cv1 ->. unfold getComponentAt, map_subscript. simpl.
    rewrite lookup_insert_eq. rewrite Nat2N.id.
    by rewrite list_lookup_middle. }
  split; [by apply Hget|].
  unfold bind. rewrite addComponent_fresh by done. by apply Hget.
Qed.

(** X2. A lookup of an entity the store holds at a valid slot is a pure
    read: it returns the component the entity is mapped to and leaves the
    store unchanged. *)
Theorem getComponentAt_held_reads cv id :
  slots_valid cv → holds cv id →
  ∃ c, getComponentAt id cv = Returns c cv ∧ component_of cv id = Some c.
Proof.
  intros Hvalid [slot Hid].
  pose proof (slots_valid_lookup _ _ _ Hvalid Hid) as Hlt.
  apply lookup_lt_is_Some in Hlt as [c Hc].
  exists c. unfold getComponentAt, map_subscript, component_of.
  rewrite Hid. simpl. rewrite Hc. split; [|done].
  by destruct cv.
Qed.

(** [addComponent] keeps the slots valid and pairwise distinct. *)
Lemma addComponent_slots_kept cv id v :
  slots_valid cv → slots_distinct cv →
  N.of_nat (length (components cv)) < 2 ^ 32 →
  ∃ cv', addComponent id v cv = Returns tt cv' ∧
         slots_valid cv' ∧ slots_distinct cv' ∧
         components cv' = components cv ++ [v] ∧
         (∀ e, e ≠ id → indexes cv' !! e = indexes cv !! e) ∧
         (holds cv id → indexes cv' = indexes cv).
Proof.
  intros Hvalid Hdistinct Hlen.
  destruct (indexes cv !! id) as [slot|] eqn:Hid.
  - eexists. split.
    { unfold addComponent, map_insert. by rewrite Hid. }
    split_and!; [| |done..].
    + intros e s He. simpl in *. rewrite length_app.
      pose proof (slots_valid_lookup _ _ _ Hvalid He). lia.
    + exact Hdistinct.
  - eexists. split; [by apply addComponent_fresh|].
    split_and!; [| |done| |].
    + intros e s. simpl. rewrite length_app. simpl.
      destruct (decide (e = id)) as [->|Hne].
      * rewrite lookup_insert_eq. intros [= <-]. lia.
      * rewrite lookup_insert_ne by done. intros He.
        pose proof (slots_valid_lookup _ _ _ Hvalid He). lia.
    + intros e1 s1. simpl. intros H1 e2 s2 H2 Heq. subst s2.
      destruct (decide (e1 = id)) as [->|Hne1];
        destruct (decide (e2 = id)) as [->|Hne2]; [done| | |].
      * rewrite lookup_insert_eq in H1. rewrite lookup_insert_ne in H2 by done.
        injection H1 as <-.
        pose proof (slots_valid_lookup _ _ _ Hvalid H2). lia.
      * rewrite lookup_insert_eq in H2. rewrite lookup_insert_ne in H1 by done.
        injection H2 as <-.
        pose proof (slots_valid_lookup _ _ _ Hvalid H1). lia.
      * rewrite lookup_insert_ne in H1, H2 by done.
        by apply (slots_distinct_lookup cv e1 e2 s1).
    + intros e Hne. simpl. by rewrite lookup_insert_ne.
    + intros [s Hs]. congruence.
Qed.

(** X3. [addComponent], for any entity, keeps the slots valid and
    pairwise distinct while the dense array has fewer than [2 ^ 32]
    elements, and leaves the component of every entity already held as it
    was. *)
Theorem addComponent_keeps_slots cv id v :
  slots_valid cv → slots_distinct cv →
  N.of_nat (length (components cv)) < 2 ^ 32 →
  ∃ cv', addComponent id v cv = Returns tt cv' ∧
         slots_valid cv' ∧ slots_distinct cv' ∧
         (∀ e, holds cv e → component_of cv' e = component_of cv e).
Proof.
  intros Hvalid Hdistinct Hlen.
  destruct (addComponent_slots_kept cv id v Hvalid Hdistinct Hlen)
    as (cv' & Hadd & Hv' & Hd' & Hdense & Hother & Hsame).
  exists cv'. split_and!; [done..|].
  intros e [s He]. unfold component_of.
  assert (indexes cv' !! e = Some s) as ->.
  { destruct (decide (e = id)) as [->|Hne].
    - rewrite Hsame; [done|by eexists].
    - by rewrite Hother. }
  rewrite He, Hdense. simpl.
  apply lookup_app_l. by apply (slots_valid_lookup cv e).
Qed.

(** X4. Insert then remove: in a store with valid slots that does not
    hold [id] and has fewer than [2 ^ 32] components, [addComponent id v]
    followed by [removeEntity id] gives back the store it started from. *)
Theorem addComponent_then_removeEntity cv id v :
  slots_valid cv →
  indexes cv !! id = None →
  N.of_nat (length (components cv)) < 2 ^ 32 →
  (addComponent id v ;;; removeEntity id)%op cv = Returns tt cv.
Proof.
  intros Hvalid Hid Hlen. unfold bind.
  rewrite addComponent_fresh by done.
  erewrite removeEntity_held; cycle 1.
  - simpl. apply lookup_insert_eq.
  - simpl. rewrite length_app, Nat2N.id. simpl. lia.
  - simpl. f_equal. destruct cv as [m l]. simpl in *. f_equal.
    + rewrite delete_insert_id by done. rewrite renumber_fmap.
      apply map_eq. intros e. rewrite lookup_fmap.
      destruct (m !! e) as [s|] eqn:He; simpl; [|done].
      pose proof (slots_valid_lookup _ _ _ Hvalid He) as Hs. simpl in Hs.
      rewrite decide_False by lia. done.
    + rewrite Nat2N.id. rewrite delete_middle. by rewrite app_nil_r.
Qed.

(** A successful remove keeps the slots valid and pairwise distinct. *)
Lemma removeEntity_keeps_slots cv id slot :
  slots_valid cv → slots_distinct cv →
  indexes cv !! id = Some slot →
  ∃ cv', removeEntity id cv = Returns tt cv' ∧
         slots_valid cv' ∧ slots_distinct cv' ∧
         length (components cv') = (length (components cv) - 1)%nat.
Proof.
  intros Hvalid Hdistinct Hid.
  pose proof (slots_valid_lookup _ _ _ Hvalid Hid) as Hslot.
  assert (Hother : ∀ e s, e ≠ id → indexes cv !! e = Some s → s ≠ slot).
  { intros e s Hne He ->. apply Hne.
    by apply (slots_distinct_lookup cv e id slot). }
  assert (Hlen : length (delete (N.to_nat slot) (components cv)) =
                 (length (components cv) - 1)%nat).
  { apply length_delete. by apply lookup_lt_is_Some. }
  eexists. split; [by apply removeEntity_held|]. simpl. split_and!; [| |done].
  - intros e s'. simpl. rewrite removed_lookup.
    case_decide as Hne; [done|]. intros (s & He & ->)%fmap_Some.
    pose proof (slots_valid_lookup _ _ _ Hvalid He).
    pose proof (Hother e s Hne He). rewrite Hlen. case_decide; lia.
  - intros e1 s1'. simpl. rewrite removed_lookup.
    case_decide as Hne1; [done|]. intros (s1 & He1 & ->)%fmap_Some e2 s2'.
    rewrite removed_lookup. case_decide as Hne2; [done|].
    intros (s2 & He2 & ->)%fmap_Some Heq.
    pose proof (Hother e1 s1 Hne1 He1). pose proof (Hother e2 s2 Hne2 He2).
    apply (slots_distinct_lookup cv e1 e2 s1); [done..|].
    rewrite He2. f_equal. repeat case_decide; lia.
Qed.

(** X5. The dense array has one element per entity as long as entities
    are only inserted when absent and removed when present; inserting for
    an entity that is already held leaves one element too many. *)
Theorem dense_exact_kept cv id v :
  dense_exact cv →
  (indexes cv !! id = None →
   ∃ cv', addComponent id v cv = Returns tt cv' ∧ dense_exact cv') ∧
  (∀ slot, indexes cv !! id = Some slot →
           (N.to_nat slot < length (components cv))%nat →
           ∃ cv', removeEntity id cv = Returns tt cv' ∧ dense_exact cv') ∧
  (holds cv id →
   ∃ cv', addComponent id v cv = Returns tt cv' ∧
          length (components cv') = Datatypes.S (size (indexes cv'))).
Proof.
  unfold dense_exact. intros Hexact. split_and!.
  - intros Hid. eexists. split; [reflexivity|]. simpl.
    unfold map_insert. rewrite Hid.
    rewrite map_size_insert_None, length_app by done. simpl. lia.
  - intros slot Hid Hslot. eexists. split; [by apply removeEntity_held|].
    simpl. rewrite renumber_fmap, map_size_fmap.
    rewrite map_size_delete_Some by by eexists.
    rewrite length_delete by by apply lookup_lt_is_Some. lia.
  - intros [slot Hid]. eexists. split; [reflexivity|]. simpl.
    unfold map_insert. rewrite Hid, length_app. simpl. lia.
Qed.


(** X7. A store reached from the empty one by [addComponent] and
    [removeEntity] calls alone, at most [2 ^ 32] of them insertions,
    never meets undefined behaviour, and its slots stay valid and
    pairwise distinct. *)
Theorem store_run_keeps_slots (cs : list (store_call T)) :
  additions cs ≤ 2 ^ 32 →
  ∃ cv, store_run cs empty = Some cv ∧ slots_valid cv ∧ slots_distinct cv.
Proof.
  cut (∀ cv0, slots_valid cv0 → slots_distinct cv0 →
         N.of_nat (length (components cv0)) + additions cs ≤ 2 ^ 32 →
         ∃ cv, store_run cs cv0 = Some cv ∧ slots_valid cv ∧ slots_distinct cv).
  { intros H Hb. apply H; [done|done|simpl; lia]. }
  induction cs as [|[id v|id] cs IH]; intros cv0 Hvalid Hdistinct Hbound.
  - by exists cv0.
  - cbn [additions] in Hbound. cbn [store_run]. unfold store_step.
    destruct (addComponent_slots_kept cv0 id v Hvalid Hdistinct)
      as (cv1 & Hadd & Hv1 & Hd1 & Hdense & _); [lia|].
    rewrite Hadd. simpl. apply IH; [done..|].
    rewrite Hdense, length_app. simpl. lia.
  - cbn [additions] in Hbound. cbn [store_run]. unfold store_step.
    destruct (indexes cv0 !! id) as [slot|] eqn:Hid.
    + destruct (removeEntity_keeps_slots cv0 id slot Hvalid Hdistinct Hid)
        as (cv1 & Hrem & Hv1 & Hd1 & Hlen).
      rewrite Hrem. simpl. apply IH; [done..|]. lia.
    + rewrite removeEntity_absent by done. simpl. by apply IH.
Qed.

End store_more.

(** ** The registry: lazy creation, forwarding and fan-out *)

Section registry_more.
Context {T : Type}.
Implicit Types (m : list (N * ComponentVector.t T)) (id key k : N)
               (cm : ComponentManager.t T).
Import ComponentManager.

Lemma map_find_insert_other key k (cv : ComponentVector.t T) m :
  k ≠ key → map_find k (map_insert key cv m) = map_find k m.
Proof.
  intros Hne. induction m as [|[k' v'] rest IH]; simpl.
  - by rewrite decide_False.
  - destruct (decide (key < k')); simpl.
    + by rewrite (decide_False (P := key = k)).
    + destruct (decide (key = k')); simpl; [done|].
      destruct (decide (k' = k)); [done|apply IH].
Qed.

Lemma map_find_store_other key k (cv : ComponentVector.t T) m :
  k ≠ key → map_find k (map_store key cv m) = map_find k m.
Proof.
  intros Hne. induction m as [|[k' v'] rest IH]; simpl; [done|].
  destruct (decide (k' = key)) as [->|Hne']; simpl.
  - by rewrite !(decide_False (P := key = k)).
  - destruct (decide (k' = k)); [done|apply IH].
Qed.

Lemma map_store_keys key (cv : ComponentVector.t T) m :
  (map_store key cv m).*1 = m.*1.
Proof.
  induction m as [|[k' v'] rest IH]; simpl; [done|].
  destruct (decide (k' = key)); simpl; [done|by f_equal].
Qed.

Lemma map_insert_keys_Forall (P : N → Prop) key (cv : ComponentVector.t T) m :
  P key → Forall P m.*1 → Forall P (map_insert key cv m).*1.
Proof.
  intros Hkey. induction m as [|[k' v'] rest IH]; simpl; intros Hall.
  - by constructor.
  - apply Forall_cons in Hall as [Hk' Hrest].
    destruct (decide (key < k')); simpl; [by repeat constructor|].
    destruct (decide (key = k')); simpl; constructor; auto.
Qed.

Lemma map_insert_sorted key (cv : ComponentVector.t T) m :
  StronglySorted N.lt m.*1 → StronglySorted N.lt (map_insert key cv m).*1.
Proof.
  induction m as [|[k' v'] rest IH]; simpl; intros Hsorted.
  - repeat constructor.
  - apply StronglySorted_inv in Hsorted as [Hrest Hall].
    destruct (decide (key < k')) as [Hlt|Hge]; simpl.
    + constructor; [by constructor|]. constructor; [done|].
      eapply Forall_impl; [exact Hall|]. simpl. intros; lia.
    + destruct (decide (key = k')) as [->|Hne]; simpl; [by constructor|].
      constructor; [by apply IH|].
      apply map_insert_keys_Forall; [lia|done].
Qed.

(** The registry after [getComponentVector]. *)
Lemma getComponentVector_ensures key cm :
  ∃ cm',
    getComponentVector key cm =
      Returns (default ComponentVector.empty
                 (map_find key (componentVectors cm))) cm' ∧
    map_find key (componentVectors cm') =
      Some (default ComponentVector.empty (map_find key (componentVectors cm))) ∧
    (is_Some (map_find key (componentVectors cm)) → cm' = cm) ∧
    (∀ k, k ≠ key → map_find k (componentVectors cm') =
                    map_find k (componentVectors cm)) ∧
    (keys_sorted cm → keys_sorted cm').
Proof.
  unfold getComponentVector.
  destruct (map_find key (componentVectors cm)) as [cv|] eqn:Hfind; simpl.
  - rewrite Hfind. eexists. split; [reflexivity|]. simpl.
    split_and!; try done. intros _. by destruct cm.
  - rewrite (map_find_insert_new _ _ _ Hfind).
    eexists. split; [reflexivity|]. simpl. split_and!.
    + by apply map_find_insert_new.
    + by intros [? ?].
    + intros k Hne. by apply map_find_insert_other.
    + unfold keys_sorted. simpl. apply map_insert_sorted.
Qed.

(** X8. [getComponentVector] never throws: it returns the store
    registered for the type, creating an empty one on first use; a
    second call returns the same store and leaves the registry as the
    first call left it; the stores of other types are untouched and the
    keys stay in increasing order. *)
Theorem getComponentVector_lazy key cm :
  ∃ cv cm',
    getComponentVector key cm = Returns cv cm' ∧
    cv = default ComponentVector.empty (map_find key (componentVectors cm)) ∧
    map_find key (componentVectors cm') = Some cv ∧
    getComponentVector key cm' = Returns cv cm' ∧
    (∀ k, k ≠ key → map_find k (componentVectors cm') =
                    map_find k (componentVectors cm)) ∧
    (keys_sorted cm → keys_sorted cm').
Proof.
  destruct (getComponentVector_ensures key cm)
    as (cm' & Hrun & Hfind & Hsame & Hother & Hsorted).
  eexists _, cm'. split_and!; try done.
  destruct (getComponentVector_ensures key cm')
    as (cm'' & Hrun' & _ & Hsame' & _).
  rewrite Hrun'. rewrite Hfind in *. simpl. f_equal.
  apply Hsame'. by eexists.
Qed.

(** The registry's [addComponent] is the store's [addComponent] on the
    store of the type. *)
Lemma addComponent_on_store key id (v : T) cm :
  ∃ cv' cm',
    addComponent key id v cm = Returns tt cm' ∧
    ComponentVector.addComponent id v
      (default ComponentVector.empty (map_find key (componentVectors cm))) =
      Returns tt cv' ∧
    map_find key (componentVectors cm') = Some cv' ∧
    (∀ k, k ≠ key → map_find k (componentVectors cm') =
                    map_find k (componentVectors cm)) ∧
    (keys_sorted cm → keys_sorted cm').
Proof.
  destruct (getComponentVector_ensures key cm)
    as (cm1 & Hrun & Hfind & _ & Hother & Hsorted).
  unfold addComponent, bind. rewrite Hrun.
  unfold arrow, within. rewrite Hfind.
  eexists _, _. split; [reflexivity|]. split; [reflexivity|]. simpl.
  split_and!.
  - by eapply map_find_store.
  - intros k Hne. rewrite map_find_store_other by done. by apply Hother.
  - intros Hs. unfold keys_sorted in *. simpl. rewrite map_store_keys.
    by apply Hsorted.
Qed.

(** X9. The registry's [addComponent] never throws; it applies the
    store's [addComponent] to the store of the type (an empty one when
    the type is new), leaves the stores of all other types untouched and
    keeps the keys in increasing order. *)
Theorem addComponent_reaches_one_store key id (v : T) cm :
  ∃ cv' cm',
    addComponent key id v cm = Returns tt cm' ∧
    ComponentVector.addComponent id v
      (default ComponentVector.empty (map_find key (componentVectors cm))) =
      Returns tt cv' ∧
    map_find key (componentVectors cm') = Some cv' ∧
    (∀ k, k ≠ key → map_find k (componentVectors cm') =
                    map_find k (componentVectors cm)) ∧
    (keys_sorted cm → keys_sorted cm').
Proof. apply addComponent_on_store. Qed.

(** X10. Insert then fetch through the registry: when the store of the
    type (or the empty store, for a new type) does not hold [id] and has
    fewer than [2 ^ 32] components, [addComponent] followed by
    [getComponentVector] returns a store in which [id] is mapped to the
    value just added. *)
Theorem addComponent_then_getComponentVector key id (v : T) cm :
  ComponentVector.indexes
    (default ComponentVector.empty (map_find key (componentVectors cm)))
    !! id = None →
  N.of_nat (length (ComponentVector.components
    (default ComponentVector.empty (map_find key (componentVectors cm)))))
    < 2 ^ 32 →
  ∃ cv' cm',
    (addComponent key id v ;;; getComponentVector key)%op cm = Returns cv' cm' ∧
    ComponentVector.component_of cv' id = Some v ∧
    ComponentVector.getComponentAt id cv' = Returns v cv'.
Proof.
  intros Hid Hlen.
  destruct (addComponent_on_store key id v cm)
    as (cv' & cm' & Hrun & Hstore & Hfind & _).
  rewrite addComponent_fresh in Hstore by done. injection Hstore as <-.
  destruct (getComponentVector_ensures key cm') as (cm'' & Hget & _ & Hsame & _).
  rewrite Hfind in Hget. simpl in Hget.
  rewrite (Hsame ltac:(by eexists)) in Hget.
  eexists _, cm'. split_and!.
  - unfold bind. rewrite Hrun. exact Hget.
  - unfold ComponentVector.component_of. simpl.
    rewrite lookup_insert_eq. simpl. rewrite Nat2N.id.
    by apply list_lookup_middle.
  - unfold ComponentVector.getComponentAt, ComponentVector.map_subscript.
    simpl. rewrite lookup_insert_eq, Nat2N.id.
    by rewrite list_lookup_middle.
Qed.

(** The fan-out over stores that all hold the entity. *)
Lemma removeEntity_loop_all_held id m :
  stores_valid m → held_in_all id m →
  ∃ m', removeEntity_loop id m = Returns tt m' ∧
        Forall2 (λ kv kv', kv'.1 = kv.1 ∧
                   ComponentVector.removeEntity id kv.2 = Returns tt kv'.2)
                m m'.
Proof.
  induction m as [|[k cv] rest IH]; intros Hvalid Hheld.
  - exists []. by split.
  - apply Forall_cons in Hvalid as [Hv Hvalid].
    apply Forall_cons in Hheld as [[slot Hslot] Hheld].
    destruct (IH Hvalid Hheld) as (rest' & Hrest & Hall).
    simpl in *. pose proof (slots_valid_lookup _ _ _ Hv Hslot) as Hlt.
    rewrite (removeEntity_held _ _ _ Hslot Hlt), Hrest.
    eexists. split; [reflexivity|]. constructor; [|done]. simpl.
    split; [done|]. by apply removeEntity_held.
Qed.

(** The fan-out when some store lacks the entity. *)
Lemma removeEntity_loop_some_absent id m :
  stores_valid m → ¬ held_in_all id m →
  ∃ m', removeEntity_loop id m = Throws out_of_range m' ∧ m'.*1 = m.*1.
Proof.
  induction m as [|[k cv] rest IH]; intros Hvalid Hnot.
  - destruct Hnot. constructor.
  - apply Forall_cons in Hvalid as [Hv Hvalid]. simpl in *.
    destruct (ComponentVector.indexes cv !! id) as [slot|] eqn:Hslot.
    + pose proof (slots_valid_lookup _ _ _ Hv Hslot) as Hlt.
      rewrite (removeEntity_held _ _ _ Hslot Hlt).
      destruct IH as (rest' & -> & Hkeys); [done| |].
      { intros Hrest. apply Hnot. constructor; [by eexists|done]. }
      eexists. split; [reflexivity|]. simpl. by f_equal.
    + rewrite (removeEntity_absent _ _ Hslot).
      eexists. split; [reflexivity|]. done.
Qed.

(** X11. The registry's [removeEntity], on stores with valid slots,
    returns exactly when every store holds the entity, and then each
    store is the result of its own [removeEntity]; when some store does
    not hold it, the call throws [out_of_range].  The set of registered
    types is the same in both cases. *)
Theorem removeEntity_returns_iff_held_in_all id cm :
  stores_valid (componentVectors cm) →
  (held_in_all id (componentVectors cm) →
   ∃ cm', removeEntity id cm = Returns tt cm' ∧
          Forall2 (λ kv kv', kv'.1 = kv.1 ∧
                     ComponentVector.removeEntity id kv.2 = Returns tt kv'.2)
                  (componentVectors cm) (componentVectors cm')) ∧
  (¬ held_in_all id (componentVectors cm) →
   ∃ cm', removeEntity id cm = Throws out_of_range cm' ∧
          (componentVectors cm').*1 = (componentVectors cm).*1).
Proof.
  intros Hvalid. unfold removeEntity, within. split; intros Hheld.
  - destruct (removeEntity_loop_all_held id _ Hvalid Hheld) as (m' & -> & Hall).
    by eexists.
  - destruct (removeEntity_loop_some_absent id _ Hvalid Hheld)
      as (m' & -> & Hkeys).
    by eexists.
Qed.

End registry_more.

(** ** The manager: entities, components and systems together *)

Section manager_more.
Context {T : Type}.
Implicit Types (w : ECSManager.t T) (id : N).
Import ECSManager.

(** X12. Destroying the same entity twice: after a [destroyEntity] that
    returned, a second [destroyEntity] for the same ID throws
    [out_of_range] and leaves the manager unchanged. *)
Theorem destroyEntity_twice_throws w w' id :
  destroyEntity id w = Returns tt w' →
  destroyEntity id w' = Throws out_of_range w'.
Proof.
  intros Hfirst.
  apply destroyEntity_returns in Hfirst as (_ & _ & Hent & _).
  apply destroyEntity_not_live. rewrite Hent. apply lookup_delete_eq.
Qed.

(** X13. [destroyEntity] of a live entity, on stores with valid slots:
    when every store holds the entity the call returns, the entity is no
    longer live, no store holds it, the other entities are untouched and
    the ID is appended to the reuse pool; when some store does not hold
    it the call throws [out_of_range] and entities, pool and counter are
    as before. *)
Theorem destroyEntity_live_outcomes w id :
  live w id →
  stores_valid (ComponentManager.componentVectors (components w)) →
  (held_in_all id (ComponentManager.componentVectors (components w)) →
   ∃ w', destroyEntity id w = Returns tt w' ∧
         ¬ live w' id ∧
         (∀ id', id' ≠ id → entities w' !! id' = entities w !! id') ∧
         reusableIDs w' = reusableIDs w ++ [id] ∧
         nextID w' = nextID w ∧
         Forall (λ kv, ¬ ComponentVector.holds kv.2 id)
                (ComponentManager.componentVectors (components w'))) ∧
  (¬ held_in_all id (ComponentManager.componentVectors (components w)) →
   ∃ w', destroyEntity id w = Throws out_of_range w' ∧
         entities w' = entities w ∧ reusableIDs w' = reusableIDs w ∧
         nextID w' = nextID w).
Proof.
  intros [e He] Hvalid. unfold destroyEntity. rewrite He.
  unfold bind, within, ComponentManager.removeEntity, within.
  split; intros Hheld.
  - destruct (removeEntity_loop_all_held id _ Hvalid Hheld) as (m' & Hloop & _).
    rewrite Hloop. eexists. split; [reflexivity|]. simpl. split_and!; try done.
    + unfold live. simpl. rewrite lookup_delete_eq. by intros [? ?].
    + intros id' Hne. by rewrite lookup_delete_ne.
    + eapply Forall_impl; [exact (removeEntity_loop_returns id _ _ Hloop)|].
      intros kv Hnone [s Hs]. simpl in *. congruence.
  - destruct (removeEntity_loop_some_absent id _ Hvalid Hheld) as (m' & -> & _).
    by eexists.
Qed.

(** X14. [createEntity] always returns: the entity it hands back is
    stored under the ID that [generateEntityID] chose, every other entry
    of the entity map is as before, and components and system lists are
    untouched. *)
Theorem createEntity_returns w :
  ∃ newID w1 e w',
    generateEntityID w = Returns newID w1 ∧
    createEntity w = Returns e w' ∧
    entities w' !! newID = Some e ∧
    (∀ id, id ≠ newID → entities w' !! id = entities w !! id) ∧
    (∀ id, live w id → live w' id) ∧
    components w' = components w ∧
    systems w' = systems w ∧ rsystems w' = rsystems w.
Proof.
  assert (Hgen : ∃ newID w1, generateEntityID w = Returns newID w1 ∧
                   entities w1 = entities w ∧ components w1 = components w ∧
                   systems w1 = systems w ∧ rsystems w1 = rsystems w).
  { unfold generateEntityID. case_decide as Hlen.
    - destruct (reusableIDs w) as [|x l _] eqn:Hpool using rev_ind; [done|].
      rewrite last_snoc. by eexists _, _.
    - by eexists _, _. }
  destruct Hgen as (newID & w1 & Hgen & Hent & Hcomp & Hsys & Hrsys).
  unfold createEntity, bind. rewrite Hgen, Hent.
  exists newID, w1.
  destruct (entities w !! newID) as [e|] eqn:He.
  - rewrite He. eexists _, _. split; [done|]. split; [reflexivity|]. simpl.
    split_and!; try done.
  - rewrite lookup_insert_eq. eexists _, _. split; [done|].
    split; [reflexivity|]. simpl. split_and!; try done.
    + apply lookup_insert_eq.
    + intros id Hne. by rewrite lookup_insert_ne.
    + intros id [e' He']. exists e'. simpl.
      rewrite lookup_insert_ne; [done|congruence].
Qed.

(** The events of one pass over a system vector. *)
Lemma for_each_trace h (l : list sysobj) w :
  for_each h l w =
  Returns tt
    (mk (systems w) (rsystems w) (components w) (entities w) (nextID w)
        (reusableIDs w)
        (trace w ++ map (λ x, Called h (address x) (dynamic_type x)) l)
        (objects w)).
Proof.
  revert w. induction l as [|x l IH]; intros [sys rsys cm ents next pool tr objs].
  - simpl. unfold ret. by rewrite app_nil_r.
  - cbn [for_each]. unfold bind, emit. rewrite IH. simpl.
    by rewrite <- app_assoc.
Qed.

(** X15. [update] and [render] change nothing but the record of calls:
    [update] calls the update hook of every element of [systems], in
    order, then of every element of [rsystems]; [render] calls the render
    hook of every element of [rsystems], in order; each call is
    dispatched on the dynamic type of the stored element. *)
Theorem update_render_calls w :
  update w =
    Returns tt
      (mk (systems w) (rsystems w) (components w) (entities w) (nextID w)
          (reusableIDs w)
          (trace w
           ++ map (λ x, Called hook_update (address x) (dynamic_type x))
                  (systems w)
           ++ map (λ x, Called hook_update (address x) (dynamic_type x))
                  (rsystems w))
          (objects w)) ∧
  render w =
    Returns tt
      (mk (systems w) (rsystems w) (components w) (entities w) (nextID w)
          (reusableIDs w)
          (trace w
           ++ map (λ x, Called hook_render (address x) (dynamic_type x))
                  (rsystems w))
          (objects w)).
Proof.
  split.
  - unfold update, bind. rewrite !for_each_trace. simpl.
    by rewrite <- app_assoc.
  - unfold render. by rewrite for_each_trace.
Qed.

(** One registration: what is appended to the two vectors. *)
Lemma registerSystem_step (T0 : systype) w :
  ∃ w' sys rsys,
    registerSystem T0 w = Returns tt w' ∧
    systems w' = systems w ++ sys ∧ rsystems w' = rsystems w ++ rsys ∧
    length sys = (if derives_System T0 then 1 else 0)%nat ∧
    length rsys = (if derives_RenderSystem T0 then 1 else 0)%nat ∧
    Forall (λ x, dynamic_type x = System) sys ∧
    Forall (λ x, dynamic_type x = RenderSystem) rsys ∧
    components w' = components w ∧ entities w' = entities w ∧
    nextID w' = nextID w ∧ reusableIDs w' = reusableIDs w.
Proof.
  destruct w as [sys0 rsys0 cm ents next pool tr objs].
  destruct T0 as [| |n|n|n].
  - eexists _, [_], []. split; [cbv -[app]; reflexivity|]. simpl.
    rewrite app_nil_r. split_and!; try done; by repeat constructor.
  - eexists _, [_], [_]. split; [cbv -[app]; reflexivity|]. simpl.
    split_and!; try done; by repeat constructor.
  - eexists _, [_], []. split; [cbv -[app]; reflexivity|]. simpl.
    rewrite app_nil_r. split_and!; try done; by repeat constructor.
  - eexists _, [_], [_]. split; [cbv -[app]; reflexivity|]. simpl.
    split_and!; try done; by repeat constructor.
  - eexists _, [], []. split; [reflexivity|]. simpl.
    rewrite !app_nil_r. split_and!; try done; by repeat constructor.
Qed.

(** X16. [registerSystem<T>] never throws and only appends: one element
    to [systems] when [T] derives from [System], and in addition one to
    [rsystems] when [T] derives from [RenderSystem]; the appended
    elements are base-class objects; earlier elements keep their place,
    and entities, components and ID allocation are untouched. *)
Theorem registerSystem_appends (T0 : systype) w :
  ∃ w' sys rsys,
    registerSystem T0 w = Returns tt w' ∧
    systems w' = systems w ++ sys ∧ rsystems w' = rsystems w ++ rsys ∧
    length sys = (if derives_System T0 then 1 else 0)%nat ∧
    length rsys = (if derives_RenderSystem T0 then 1 else 0)%nat ∧
    Forall (λ x, dynamic_type x = System) sys ∧
    Forall (λ x, dynamic_type x = RenderSystem) rsys ∧
    components w' = components w ∧ entities w' = entities w ∧
    nextID w' = nextID w ∧ reusableIDs w' = reusableIDs w.
Proof. apply registerSystem_step. Qed.

Lemma register_all_sliced (Ts : list systype) w :
  sliced w →
  ∃ w', register_all Ts w = Returns tt w' ∧ sliced w' ∧
        length (systems w') =
          (length (systems w)
           + length (filter (λ T0, derives_System T0 = true) Ts))%nat ∧
        length (rsystems w') =
          (length (rsystems w)
           + length (filter (λ T0, derives_RenderSystem T0 = true) Ts))%nat.
Proof.
  revert w. induction Ts as [|T0 Ts IH]; intros w [Hs Hr].
  - exists w. simpl. split_and!; try done; lia.
  - destruct (registerSystem_step T0 w)
      as (w1 & sys & rsys & Hrun & Hsys & Hrsys & Hls & Hlr & Hds & Hdr & _).
    destruct (IH w1) as (w' & Hrest & Hsl & Hlen & Hrlen).
    { split; [rewrite Hsys|rewrite Hrsys]; by apply Forall_app_2. }
    exists w'. cbn [register_all]. unfold bind. rewrite Hrun.
    split_and!; [done..| |].
    + rewrite Hlen, Hsys, length_app, Hls. rewrite filter_cons.
      destruct (derives_System T0); simpl; try case_decide; simpl;
        try done; lia.
    + rewrite Hrlen, Hrsys, length_app, Hlr. rewrite filter_cons.
      destruct (derives_RenderSystem T0); simpl; try case_decide; simpl;
        try done; lia.
Qed.

(** X17. After any sequence of registrations on a new manager, [systems]
    has one element per registered type deriving [System] (render systems
    included) and [rsystems] one per type deriving [RenderSystem]; all
    of them are base-class objects, so every hook that [update] and
    [render] call is the empty one of [System] or [RenderSystem]. *)
Theorem register_all_base_hooks (Ts : list systype) :
  ∃ w w1 w2,
    register_all Ts (new (T := T)) = Returns tt w ∧
    length (systems w) =
      length (filter (λ T0, derives_System T0 = true) Ts) ∧
    length (rsystems w) =
      length (filter (λ T0, derives_RenderSystem T0 = true) Ts) ∧
    update w = Returns tt w1 ∧ render w = Returns tt w2 ∧
    (∀ h obj impl, Called h obj impl ∈ drop (length (trace w)) (trace w1) →
                   h = hook_update ∧ (impl = System ∨ impl = RenderSystem)) ∧
    (∀ h obj impl, Called h obj impl ∈ drop (length (trace w)) (trace w2) →
                   h = hook_render ∧ impl = RenderSystem).
Proof.
  destruct (register_all_sliced Ts new) as (w & Hrun & [Hs Hr] & Hlen & Hrlen).
  { split; constructor. }
  destruct (update_render_calls w) as [Hupdate Hrender].
  eexists w, _, _. split_and!; [done|done|done|exact Hupdate|exact Hrender| |].
  - intros h obj impl. simpl. rewrite drop_app_length.
    rewrite elem_of_app, !list_elem_of_In, !in_map_iff.
    intros [(x & Heq & Hin)|(x & Heq & Hin)]; injection Heq as <- <- <-.
    + split; [done|]. left.
      apply list_elem_of_In in Hin. by apply (proj1 (Forall_forall _ _) Hs).
    + split; [done|]. right.
      apply list_elem_of_In in Hin. by apply (proj1 (Forall_forall _ _) Hr).
  - intros h obj impl. simpl. rewrite drop_app_length.
    rewrite !list_elem_of_In, !in_map_iff.
    intros (x & Heq & Hin); injection Heq as <- <- <-.
    split; [done|].
    apply list_elem_of_In in Hin. by apply (proj1 (Forall_forall _ _) Hr).
Qed.

(** X18. [Entity::addComponent] repeats the guard of the manager and adds
    nothing to it: it behaves as [ECSManager::addComponent] called with
    the entity's ID. *)
Theorem Entity_addComponent_is_addComponent (e : Entity) (C : ctype) (v : T) w :
  Entity_addComponent e C v w = addComponent C (entityID e) v w.
Proof.
  unfold Entity_addComponent, addComponent.
  by destruct (derives_Component C).
Qed.

(** X19. Adding a component through the manager and fetching the store
    of its type: for a type deriving [Component] whose store does not yet
    hold [id] (and has fewer than [2 ^ 32] components), the store
    returned by [getComponentVector] maps [id] to the value added, and
    the two calls leave entities, reuse pool and counter as they were,
    whether or not [id] is live. *)
Theorem addComponent_then_fetch (C : ctype) id (v : T) w :
  derives_Component C = true →
  ComponentVector.indexes
    (default ComponentVector.empty
       (ComponentManager.map_find (typekey C)
          (ComponentManager.componentVectors (components w)))) !! id = None →
  N.of_nat (length (ComponentVector.components
    (default ComponentVector.empty
       (ComponentManager.map_find (typekey C)
          (ComponentManager.componentVectors (components w)))))) < 2 ^ 32 →
  ∃ cv' w',
    (addComponent C id v ;;; getComponentVector C)%op w = Returns cv' w' ∧
    ComponentVector.component_of cv' id = Some v ∧
    entities w' = entities w ∧ reusableIDs w' = reusableIDs w ∧
    nextID w' = nextID w.
Proof.
  intros HC Hid Hlen.
  destruct (addComponent_on_store (typekey C) id v (components w))
    as (cv' & cm' & Hrun & Hstore & Hfind & _).
  rewrite addComponent_fresh in Hstore by done. injection Hstore as <-.
  destruct (getComponentVector_ensures (typekey C) cm')
    as (cm'' & Hget & _ & Hsame & _).
  rewrite Hfind in Hget. simpl in Hget.
  rewrite (Hsame ltac:(by eexists)) in Hget.
  unfold bind, addComponent, getComponentVector, within. rewrite HC, Hrun.
  simpl. rewrite Hget. eexists _, _. split; [reflexivity|]. simpl.
  split_and!; try done.
  unfold ComponentVector.component_of. simpl.
  rewrite lookup_insert_eq. simpl. rewrite Nat2N.id.
  by apply list_lookup_middle.
Qed.

(** X20. The reuse pool is last-in first-out: after [destroyEntity a]
    and then [destroyEntity b] have returned, the next two [createEntity]
    calls hand out [b] and then [a]. *)
Theorem createEntity_after_two_destroys w w1 w2 a b :
  entities_keyed w →
  destroyEntity a w = Returns tt w1 →
  destroyEntity b w1 = Returns tt w2 →
  ∃ w3 w4,
    createEntity w2 = Returns {| entityID := b |} w3 ∧
    createEntity w3 = Returns {| entityID := a |} w4 ∧
    reusableIDs w4 = reusableIDs w.
Proof.
  intros Hk Ha Hb.
  apply destroyEntity_returns in Ha as (_ & _ & Hent1 & Hpool1 & _).
  apply destroyEntity_returns in Hb as (_ & _ & Hent2 & Hpool2 & _).
  pose proof (entities_keyed_delete _ _ _ Hk Hent1) as Hk1.
  pose proof (entities_keyed_delete _ _ _ Hk1 Hent2) as Hk2.
  destruct (createEntity_stored w2 _ b Hk2 (generateEntityID_pool _ _ _ Hpool2))
    as (w3 & Hrun3 & Hp3 & _ & _ & Hnew3 & Hold3); [done|].
  simpl in Hp3.
  assert (Hk3 : entities_keyed w3).
  { intros id e He. destruct (decide (id = b)) as [->|Hne].
    - rewrite Hnew3 in He. by injection He as <-.
    - rewrite (Hold3 id Hne) in He. exact (Hk2 id e He). }
  rewrite Hpool1 in Hp3.
  destruct (createEntity_stored w3 _ a Hk3 (generateEntityID_pool _ _ _ Hp3))
    as (w4 & Hrun4 & Hp4 & _); [done|].
  by exists w3, w4.
Qed.

End manager_more.

(** Instances of the properties above on the sample states. *)

Lemma addComponent_then_getComponentAt_witness :
  ComponentVector.indexes one_stored !! 3 = None ∧
  N.of_nat (length (ComponentVector.components one_stored)) < 2 ^ 32 ∧
  ∃ cv', (ComponentVector.addComponent 3 11 ;;;
          ComponentVector.getComponentAt 3)%op one_stored = Returns 11 cv'.
Proof.
  assert (Hlen : N.of_nat (length (ComponentVector.components one_stored))
                 < 2 ^ 32) by (simpl; lia).
  split_and!; [done..|].
  destruct (addComponent_then_getComponentAt one_stored 3 11 eq_refl Hlen)
    as (cv' & _ & _ & Hrun).
  by exists cv'.
Defined.

Lemma getComponentAt_held_reads_witness :
  ComponentVector.slots_valid one_stored ∧
  ComponentVector.holds one_stored 7 ∧
  ∃ c, ComponentVector.getComponentAt 7 one_stored = Returns c one_stored.
Proof.
  assert (Hv : ComponentVector.slots_valid one_stored)
    by (apply (bool_decide_unpack _); vm_compute; exact I).
  assert (Hh : ComponentVector.holds one_stored 7) by (by eexists).
  split_and!; [done..|].
  destruct (getComponentAt_held_reads one_stored 7 Hv Hh) as (c & Hrun & _).
  by exists c.
Defined.

Lemma addComponent_keeps_slots_witness :
  ComponentVector.slots_valid three_stored ∧
  ComponentVector.slots_distinct three_stored ∧
  N.of_nat (length (ComponentVector.components three_stored)) < 2 ^ 32 ∧
  ∃ cv', ComponentVector.addComponent 5 13 three_stored = Returns tt cv' ∧
         ComponentVector.slots_valid cv' ∧ ComponentVector.slots_distinct cv'.
Proof.
  assert (Hv : ComponentVector.slots_valid three_stored)
    by (apply (bool_decide_unpack _); vm_compute; exact I).
  assert (Hd : ComponentVector.slots_distinct three_stored)
    by (apply (bool_decide_unpack _); vm_compute; exact I).
  assert (Hlen : N.of_nat (length (ComponentVector.components three_stored))
                 < 2 ^ 32) by (simpl; lia).
  split_and!; [done..|].
  destruct (addComponent_keeps_slots three_stored 5 13 Hv Hd Hlen)
    as (cv' & Hrun & Hv' & Hd' & _).
  by exists cv'.
Defined.

Lemma addComponent_then_removeEntity_witness :
  ComponentVector.slots_valid three_stored ∧
  ComponentVector.indexes three_stored !! 5 = None ∧
  N.of_nat (length (ComponentVector.components three_stored)) < 2 ^ 32 ∧
  (ComponentVector.addComponent 5 13 ;;;
   ComponentVector.removeEntity 5)%op three_stored = Returns tt three_stored.
Proof.
  assert (Hv : ComponentVector.slots_valid three_stored)
    by (apply (bool_decide_unpack _); vm_compute; exact I).
  assert (Hlen : N.of_nat (length (ComponentVector.components three_stored))
                 < 2 ^ 32) by (simpl; lia).
  split_and!; [done..|].
  exact (addComponent_then_removeEntity three_stored 5 13 Hv eq_refl Hlen).
Defined.

Lemma dense_exact_kept_witness :
  dense_exact three_stored ∧
  ComponentVector.indexes three_stored !! 1 = Some 1 ∧
  ∃ cv', ComponentVector.removeEntity 1 three_stored = Returns tt cv' ∧
         dense_exact cv'.
Proof.
  assert (He : dense_exact three_stored) by reflexivity.
  split_and!; [done..|].
  apply (proj1 (proj2 (dense_exact_kept three_stored 1 0 He)) 1 eq_refl).
  simpl. lia.
Defined.


Lemma store_run_keeps_slots_witness :
  additions store_calls_sample ≤ 2 ^ 32 ∧
  ∃ cv, store_run store_calls_sample ComponentVector.empty = Some cv ∧
        ComponentVector.slots_valid cv.
Proof.
  assert (Hb : additions store_calls_sample ≤ 2 ^ 32) by (simpl; lia).
  split; [done|].
  destruct (store_run_keeps_slots store_calls_sample Hb) as (cv & Hrun & Hv & _).
  by exists cv.
Defined.

Lemma addComponent_then_getComponentVector_witness :
  ComponentVector.indexes
    (default ComponentVector.empty
       (ComponentManager.map_find 10 (ComponentManager.componentVectors two_stores)))
    !! 4 = None ∧
  ∃ cv' cm',
    (ComponentManager.addComponent 10 4 9 ;;;
     ComponentManager.getComponentVector 10)%op two_stores = Returns cv' cm' ∧
    ComponentVector.component_of cv' 4 = Some 9.
Proof.
  split; [reflexivity|].
  destruct (addComponent_then_getComponentVector 10 4 9 two_stores eq_refl)
    as (cv' & cm' & Hrun & Hc & _); [simpl; lia|].
  by exists cv', cm'.
Defined.

Lemma removeEntity_returns_iff_held_in_all_witness :
  stores_valid (ComponentManager.componentVectors two_stores) ∧
  held_in_all 0 (ComponentManager.componentVectors two_stores) ∧
  ¬ held_in_all 1 (ComponentManager.componentVectors two_stores) ∧
  (∃ cm', ComponentManager.removeEntity 0 two_stores = Returns tt cm') ∧
  (∃ cm', ComponentManager.removeEntity 1 two_stores = Throws out_of_range cm').
Proof.
  assert (Hv : stores_valid (ComponentManager.componentVectors two_stores)).
  { unfold stores_valid, two_stores; simpl.
    apply Forall_cons_2; [|apply Forall_cons_2; [|apply Forall_nil_2]];
      apply (bool_decide_unpack _); vm_compute; exact I. }
  assert (H0 : held_in_all 0 (ComponentManager.componentVectors two_stores)).
  { unfold held_in_all, two_stores; simpl.
    apply Forall_cons_2; [|apply Forall_cons_2; [|apply Forall_nil_2]];
      by eexists. }
  assert (H1 : ¬ held_in_all 1 (ComponentManager.componentVectors two_stores)).
  { intros [[s Hs] _]%Forall_cons. by vm_compute in Hs. }
  split_and!; [done..| |].
  - destruct (proj1 (removeEntity_returns_iff_held_in_all 0 two_stores Hv) H0)
      as (cm' & Hrun & _).
    by exists cm'.
  - destruct (proj2 (removeEntity_returns_iff_held_in_all 1 two_stores Hv) H1)
      as (cm' & Hrun & _).
    by exists cm'.
Defined.

Lemma destroyEntity_twice_throws_witness :
  ∃ w', ECSManager.destroyEntity 0 two_entities = Returns tt w' ∧
        ECSManager.destroyEntity 0 w' = Throws out_of_range w'.
Proof.
  eexists. split; [reflexivity|].
  by apply (destroyEntity_twice_throws two_entities).
Defined.

Lemma destroyEntity_live_outcomes_witness :
  ECSManager.live two_entities_stored 0 ∧
  ECSManager.live two_entities_stored 1 ∧
  stores_valid (ComponentManager.componentVectors
                  (ECSManager.components two_entities_stored)) ∧
  held_in_all 0 (ComponentManager.componentVectors
                   (ECSManager.components two_entities_stored)) ∧
  ¬ held_in_all 1 (ComponentManager.componentVectors
                     (ECSManager.components two_entities_stored)) ∧
  (∃ w', ECSManager.destroyEntity 0 two_entities_stored = Returns tt w' ∧
         ¬ ECSManager.live w' 0 ∧ ECSManager.reusableIDs w' = [0] ∧
         Forall (λ kv, ¬ ComponentVector.holds kv.2 0)
                (ComponentManager.componentVectors (ECSManager.components w'))) ∧
  (∃ w', ECSManager.destroyEntity 1 two_entities_stored =
           Throws out_of_range w' ∧
         ECSManager.entities w' = ECSManager.entities two_entities_stored ∧
         ECSManager.reusableIDs w' = []).
Proof.
  assert (Hl0 : ECSManager.live two_entities_stored 0) by (by eexists).
  assert (Hl1 : ECSManager.live two_entities_stored 1) by (by eexists).
  assert (Hv : stores_valid (ComponentManager.componentVectors
                               (ECSManager.components two_entities_stored))).
  { unfold stores_valid, two_entities_stored, two_stores; simpl.
    apply Forall_cons_2; [|apply Forall_cons_2; [|apply Forall_nil_2]];
      apply (bool_decide_unpack _); vm_compute; exact I. }
  assert (H0 : held_in_all 0 (ComponentManager.componentVectors
                                (ECSManager.components two_entities_stored))).
  { unfold held_in_all, two_entities_stored, two_stores; simpl.
    apply Forall_cons_2; [|apply Forall_cons_2; [|apply Forall_nil_2]];
      by eexists. }
  assert (H1 : ¬ held_in_all 1 (ComponentManager.componentVectors
                                  (ECSManager.components two_entities_stored))).
  { intros [[s Hs] _]%Forall_cons. by vm_compute in Hs. }
  split_and!; [done..| |].
  - destruct (proj1 (destroyEntity_live_outcomes two_entities_stored 0 Hl0 Hv) H0)
      as (w' & Hrun & Hdead & _ & Hpool & _ & Hgone).
    by exists w'.
  - destruct (proj2 (destroyEntity_live_outcomes two_entities_stored 1 Hl1 Hv) H1)
      as (w' & Hrun & Hent & Hpool & _).
    by exists w'.
Defined.

Lemma addComponent_then_fetch_witness :
  derives_Component Position = true ∧
  ¬ ECSManager.live (ECSManager.new (T := N)) 0 ∧
  ∃ cv' w',
    (ECSManager.addComponent Position 0 5 ;;;
     ECSManager.getComponentVector Position)%op (ECSManager.new (T := N)) =
      Returns cv' w' ∧
    ComponentVector.component_of cv' 0 = Some 5.
Proof.
  split; [done|]. split.
  { intros [e He]. simpl in He. by rewrite lookup_empty in He. }
  destruct (addComponent_then_fetch Position 0 5 (ECSManager.new (T := N))
              eq_refl eq_refl)
    as (cv' & w' & Hrun & Hc & _); [simpl; lia|].
  by exists cv', w'.
Defined.

Lemma createEntity_after_two_destroys_witness :
  ECSManager.entities_keyed two_entities ∧
  ∃ w1 w2 w3 w4,
    ECSManager.destroyEntity 0 two_entities = Returns tt w1 ∧
    ECSManager.destroyEntity 1 w1 = Returns tt w2 ∧
    ECSManager.createEntity w2 = Returns {| entityID := 1 |} w3 ∧
    ECSManager.createEntity w3 = Returns {| entityID := 0 |} w4.
Proof.
  assert (Hk : ECSManager.entities_keyed two_entities)
    by (apply (bool_decide_unpack _); vm_compute; exact I).
  split; [done|].
  assert (H1 : ∃ w1, ECSManager.destroyEntity 0 two_entities = Returns tt w1)
    by (eexists; reflexivity).
  destruct H1 as [w1 H1].
  assert (H2 : ∃ w2, ECSManager.destroyEntity 1 w1 = Returns tt w2).
  { unfold ECSManager.destroyEntity in H1. simpl in H1.
    injection H1 as <-. eexists. reflexivity. }
  destruct H2 as [w2 H2].
  destruct (createEntity_after_two_destroys two_entities w1 w2 0 1 Hk H1 H2)
    as (w3 & w4 & H3 & H4 & _).
  by exists w1, w2, w3, w4.
Defined.
